(** * M1WEngine: the movement core (Tile), the camera and the damsel's
      collision hook, embedded from the Python sources

    - [game/tiles/tile.py]                  : [Tile]
    - [game/cameraControl/cameraManager.py] : [CameraManager.camera_update]
    - [game/entities/damsel.py]             : [Damsel.collision_handler]

    Numbers.  The heading components are the [Direction] constants or 0 and the
    movement tracker only ever adds them up, so both hold whole numbers;
    Python floats carry those exactly (below 2^53) and they are kept as [Z]
    here.  Fractional headings and trackers are outside this embedding: a
    statement that would not carry over to them is restricted, by a
    hypothesis, to the headings -1, 0, 1 and to the tracker at rest.  Pixel
    coordinates are integers in the source. *)

From Stdlib Require Import ZArith Lia String.
From stdpp Require Import base option list sorting strings gmap.

Local Open Scope Z_scope.

(* ===================================================================== *)
(** ** Direction constants *)
(* ===================================================================== *)

(** Modelled from the spec: the module [direction.py] (class [Direction]) is
    not among the sources.  The spec calls it "named numeric constants for the
    four cardinal movement deltas" with unit thresholds of +1 and -1, its
    example has heading (1,0) cross the right threshold at 1, and [Tile.move]
    carries the comment "move each time a tracker is 1 or -1".  Screen
    coordinates grow to the right and downwards. *)
Module Direction.
Definition up : Z := -1.
Definition down : Z := 1.
Definition left : Z := -1.
Definition right : Z := 1.
End Direction.

(* ===================================================================== *)
(** ** The parts of pygame the code relies on *)
(* ===================================================================== *)

(** [pygame.math.Vector2], restricted to the two components, which hold
    whole numbers here (see the note on numbers above). *)
Record Vector2 : Type := mkVector2 { vec_x : Z; vec_y : Z }.

(** [Vector2()] *)
Definition Vector2_zero : Vector2 := mkVector2 0 0.

(** [v * k] *)
Definition Vector2_scale (v : Vector2) (k : Z) : Vector2 :=
  mkVector2 (vec_x v * k) (vec_y v * k).

(** [pygame.Rect]: top-left corner and size. *)
Record Rect : Type := mkRect {
  rect_left : Z;
  rect_top : Z;
  rect_width : Z;
  rect_height : Z
}.

(** [pygame.Surface]: only its size matters to [get_rect]. *)
Record Surface : Type := mkSurface { surf_width : Z; surf_height : Z }.

(** [surface.get_rect(topleft=coords)] *)
Definition get_rect (surface : Surface) (coords : Z * Z) : Rect :=
  mkRect (fst coords) (snd coords) (surf_width surface) (surf_height surface).

(** [r.topleft] *)
Definition rect_topleft (r : Rect) : Z * Z := (rect_left r, rect_top r).

(** [r.size] *)
Definition rect_size (r : Rect) : Z * Z := (rect_width r, rect_height r).

(** [r.centerx], [r.centery], [r.center]: the corner plus half of the size,
    halved by a right shift as pygame does. *)
Definition rect_centerx (r : Rect) : Z := rect_left r + Z.shiftr (rect_width r) 1.
Definition rect_centery (r : Rect) : Z := rect_top r + Z.shiftr (rect_height r) 1.
Definition rect_center (r : Rect) : Z * Z := (rect_centerx r, rect_centery r).

(** [r.center = c]: moves the rectangle, keeps its size. *)
Definition rect_set_center (c : Z * Z) (r : Rect) : Rect :=
  mkRect (fst c - Z.shiftr (rect_width r) 1)
         (snd c - Z.shiftr (rect_height r) 1)
         (rect_width r) (rect_height r).

(** [r.move_ip(dx, dy)] *)
Definition rect_move_ip (dx dy : Z) (r : Rect) : Rect :=
  mkRect (rect_left r + dx) (rect_top r + dy) (rect_width r) (rect_height r).

(** [r.inflate(dx, dy)]: a new rectangle, grown around the same center. *)
Definition rect_inflate (dx dy : Z) (r : Rect) : Rect :=
  mkRect (rect_left r - Z.quot dx 2) (rect_top r - Z.quot dy 2)
         (rect_width r + dx) (rect_height r + dy).

(* ===================================================================== *)
(** ** Tile *)
(* ===================================================================== *)

(** [self.movementTracker], a dict with the two fixed keys ["vertical"] and
    ["horizontal"]; the values are whole numbers here (see the note on
    numbers above). *)
Record MovementTracker : Type := mkTracker { vertical : Z; horizontal : Z }.

(** What [self.hitbox] refers to.  [set_tile] assigns [self.hitbox = self.rect],
    after which both names denote one [Rect] object; a subclass such as
    [Damsel] assigns a rectangle of its own ([self.rect.inflate(0, -10)]). *)
Inductive HitboxRef : Type :=
| SameAsRect
| OwnRect (r : Rect).

(** The attributes of a [Tile] whose rectangles have been assigned (by
    [set_tile] for terrain, by the constructor for [Damsel]). *)
Record Tile : Type := mkTile {
  image : Surface;
  rect : Rect;
  hitbox : HitboxRef;
  compass : Vector2;
  movementTracker : MovementTracker;
  groups : list string
}.

(** The rectangle read through [self.hitbox]. *)
Definition hitbox_rect (self : Tile) : Rect :=
  match hitbox self with
  | SameAsRect => rect self
  | OwnRect r => r
  end.

Definition with_rect (r : Rect) (self : Tile) : Tile :=
  mkTile (image self) r (hitbox self) (compass self) (movementTracker self) (groups self).

Definition with_hitbox (h : HitboxRef) (self : Tile) : Tile :=
  mkTile (image self) (rect self) h (compass self) (movementTracker self) (groups self).

Definition with_compass (c : Vector2) (self : Tile) : Tile :=
  mkTile (image self) (rect self) (hitbox self) c (movementTracker self) (groups self).

Definition with_tracker (m : MovementTracker) (self : Tile) : Tile :=
  mkTile (image self) (rect self) (hitbox self) (compass self) m (groups self).

(** [self.compass.x = v] and [self.compass.y = v] *)
Definition set_compass_x (v : Z) (self : Tile) : Tile :=
  with_compass (mkVector2 v (vec_y (compass self))) self.

Definition set_compass_y (v : Z) (self : Tile) : Tile :=
  with_compass (mkVector2 (vec_x (compass self)) v) self.

(** [self.movementTracker["vertical"] += d] and the same for ["horizontal"] *)
Definition add_vertical (d : Z) (self : Tile) : Tile :=
  with_tracker (mkTracker (vertical (movementTracker self) + d)
                          (horizontal (movementTracker self))) self.

Definition add_horizontal (d : Z) (self : Tile) : Tile :=
  with_tracker (mkTracker (vertical (movementTracker self))
                          (horizontal (movementTracker self) + d)) self.

(** [self.rect.move_ip(dx, dy)] *)
Definition rect_move (dx dy : Z) (self : Tile) : Tile :=
  with_rect (rect_move_ip dx dy (rect self)) self.

(** [self.hitbox.center = self.rect.center].  When the hitbox is the render
    rectangle itself the assignment writes to that one object. *)
Definition sync_hitbox (self : Tile) : Tile :=
  let c := rect_center (rect self) in
  match hitbox self with
  | SameAsRect => with_rect (rect_set_center c (rect self)) self
  | OwnRect h => with_hitbox (OwnRect (rect_set_center c h)) self
  end.

Definition _move_left (speed : Z) (self : Tile) : Tile :=
  let move_pixels_x := -1 * speed in
  let move_pixels_y := 0 in
  sync_hitbox (rect_move move_pixels_x move_pixels_y self).

Definition _move_right (speed : Z) (self : Tile) : Tile :=
  let move_pixels_x := speed in
  let move_pixels_y := 0 in
  sync_hitbox (rect_move move_pixels_x move_pixels_y self).

Definition _move_up (speed : Z) (self : Tile) : Tile :=
  let move_pixels_x := 0 in
  let move_pixels_y := -1 * speed in
  sync_hitbox (rect_move move_pixels_x move_pixels_y self).

Definition _move_down (speed : Z) (self : Tile) : Tile :=
  let move_pixels_x := 0 in
  let move_pixels_y := speed in
  sync_hitbox (rect_move move_pixels_x move_pixels_y self).

Definition update_movement_tracker (self : Tile) : Tile :=
  add_vertical (vec_y (compass self)) (add_horizontal (vec_x (compass self)) self).

(** The vertical and the horizontal [if]/[elif] of [move]. *)
Definition move_vertical (speed : Z) (self : Tile) : Tile :=
  if vertical (movementTracker self) <=? Direction.up then
    add_vertical Direction.down (_move_up speed self)
  else if vertical (movementTracker self) >=? Direction.down then
    add_vertical Direction.up (_move_down speed self)
  else self.

Definition move_horizontal (speed : Z) (self : Tile) : Tile :=
  if horizontal (movementTracker self) <=? Direction.left then
    add_horizontal Direction.right (_move_left speed self)
  else if horizontal (movementTracker self) >=? Direction.right then
    add_horizontal Direction.left (_move_right speed self)
  else self.

Definition move (speed : Z) (self : Tile) : Tile :=
  move_horizontal speed (move_vertical speed (update_movement_tracker self)).

Definition move_right (speed : Z) (self : Tile) : Tile :=
  _move_right speed (set_compass_y 0 (set_compass_x Direction.right self)).

Definition move_left (speed : Z) (self : Tile) : Tile :=
  _move_left speed (set_compass_y 0 (set_compass_x Direction.right self)).

Definition move_up (speed : Z) (self : Tile) : Tile :=
  _move_up speed (set_compass_y Direction.up (set_compass_x 0 self)).

Definition move_down (speed : Z) (self : Tile) : Tile :=
  _move_down speed (set_compass_y Direction.down (set_compass_x 0 self)).

Definition set_tile (coords : Z * Z) (surface : Surface) (self : Tile) : Tile :=
  mkTile surface (get_rect surface coords) SameAsRect
         (compass self) (movementTracker self) (groups self).

(** [Tile.__init__] followed by [set_tile], the way a terrain tile is built. *)
Definition new_tile (grps : list string) (coords : Z * Z) (surface : Surface) : Tile :=
  mkTile surface (get_rect surface coords) SameAsRect
         Vector2_zero (mkTracker 0 0) grps.

(** A call of one of the movement methods of [Tile], for sequences of calls. *)
Inductive TileCall : Type :=
| Call_move (speed : Z)
| Call_move_left (speed : Z)
| Call_move_right (speed : Z)
| Call_move_up (speed : Z)
| Call_move_down (speed : Z)
| Call__move_left (speed : Z)
| Call__move_right (speed : Z)
| Call__move_up (speed : Z)
| Call__move_down (speed : Z).

Definition run_call (c : TileCall) (self : Tile) : Tile :=
  match c with
  | Call_move speed => move speed self
  | Call_move_left speed => move_left speed self
  | Call_move_right speed => move_right speed self
  | Call_move_up speed => move_up speed self
  | Call_move_down speed => move_down speed self
  | Call__move_left speed => _move_left speed self
  | Call__move_right speed => _move_right speed self
  | Call__move_up speed => _move_up speed self
  | Call__move_down speed => _move_down speed self
  end.

(** The calls of a list, made one after the other from left to right. *)
Definition run_calls (cs : list TileCall) (self : Tile) : Tile :=
  fold_left (fun t c => run_call c t) cs self.

(** The four directions, to speak of the directional calls together. *)
Inductive Dir : Type := Up | Down | Left | Right.

(** The unit vector pointing in a direction. *)
Definition unit_vector (d : Dir) : Vector2 :=
  match d with
  | Up => mkVector2 0 Direction.up
  | Down => mkVector2 0 Direction.down
  | Left => mkVector2 Direction.left 0
  | Right => mkVector2 Direction.right 0
  end.

(** [move_up], [move_down], [move_left], [move_right] by direction. *)
Definition move_dir (d : Dir) (speed : Z) (self : Tile) : Tile :=
  match d with
  | Up => move_up speed self
  | Down => move_down speed self
  | Left => move_left speed self
  | Right => move_right speed self
  end.

(** [_move_up], [_move_down], [_move_left], [_move_right] by direction. *)
Definition _move_dir (d : Dir) (speed : Z) (self : Tile) : Tile :=
  match d with
  | Up => _move_up speed self
  | Down => _move_down speed self
  | Left => _move_left speed self
  | Right => _move_right speed self
  end.

(** What [move] tests after [update_movement_tracker]: has the advanced
    tracker of an axis reached a threshold? *)
Definition crosses_up (self : Tile) : bool :=
  vertical (movementTracker self) + vec_y (compass self) <=? Direction.up.
Definition crosses_down (self : Tile) : bool :=
  vertical (movementTracker self) + vec_y (compass self) >=? Direction.down.
Definition crosses_left (self : Tile) : bool :=
  horizontal (movementTracker self) + vec_x (compass self) <=? Direction.left.
Definition crosses_right (self : Tile) : bool :=
  horizontal (movementTracker self) + vec_x (compass self) >=? Direction.right.

(** The claimed reading of the directional calls: point the heading in the
    direction, then make one [move] step. *)
Definition set_heading_then_move (d : Dir) (speed : Z) (self : Tile) : Tile :=
  move speed (with_compass (unit_vector d) self).

(** The displacement of the render rectangle in one [move] call. *)
Definition move_dx (speed : Z) (self : Tile) : Z :=
  rect_left (rect (move speed self)) - rect_left (rect self).
Definition move_dy (speed : Z) (self : Tile) : Z :=
  rect_top (rect (move speed self)) - rect_top (rect self).

(** The reading "one pixel per crossing, never more than one pixel per axis"
    of one [move] call. *)
Definition one_pixel_step (speed : Z) (self : Tile) : Prop :=
  (crosses_left self || crosses_right self = true -> Z.abs (move_dx speed self) = 1) /\
  (crosses_up self || crosses_down self = true -> Z.abs (move_dy speed self) = 1) /\
  Z.abs (move_dx speed self) <= 1 /\
  Z.abs (move_dy speed self) <= 1.

(** A 16x16 terrain tile at (100,100) heading right, tracker at rest. *)
Definition tile_heading_right : Tile :=
  mkTile (mkSurface 16 16) (mkRect 100 100 16 16) SameAsRect
         (mkVector2 1 0) (mkTracker 0 0) [].

(** A 16x16 terrain tile at the origin whose horizontal tracker stands at -1. *)
Definition tile_tracker_behind : Tile :=
  mkTile (mkSurface 16 16) (mkRect 0 0 16 16) SameAsRect
         Vector2_zero (mkTracker 0 (-1)) [].

(* ===================================================================== *)
(** ** Sprites in the world, CameraManager *)
(* ===================================================================== *)

(** An object the camera can hold: a [Tile] together with the [speed]
    attribute of the [Entity] subclasses.  [camera_update] reads the speed of
    the player only. *)
Record Sprite : Type := mkSprite { tile : Tile; speed : Z }.

Definition with_tile (t : Tile) (s : Sprite) : Sprite := mkSprite t (speed s).

(** [sprite.compass = c] and [sprite.move(speed)] on a stored object. *)
Definition sprite_set_compass (c : Vector2) (s : Sprite) : Sprite :=
  with_tile (with_compass c (tile s)) s.

Definition sprite_move (spd : Z) (s : Sprite) : Sprite :=
  with_tile (move spd (tile s)) s.

(** Python objects have identity: the world maps object identifiers to the
    current attributes, and groups hold identifiers. *)
Abbreviation objid := nat.
Abbreviation World := (gmap nat Sprite).

(** [CameraManager]: the sprites of the group in the order [self.sprites()]
    lists them, the player, and the fields set by the constructor. *)
Record CameraManager : Type := mkCameraManager {
  sprites : list objid;
  playerCharacter : objid;
  halfWidth : Z;
  halfHeight : Z;
  offset : Vector2
}.

(** [sorted(items, key=...)] on items already paired with their key: Python's
    sort is stable, and so is this insertion sort (an item goes in front of
    the first one whose key is not smaller). *)
Fixpoint insert_keyed (x : Z * objid) (l : list (Z * objid)) : list (Z * objid) :=
  match l with
  | [] => [x]
  | y :: l' => if fst x <=? fst y then x :: y :: l' else y :: insert_keyed x l'
  end.

Fixpoint sorted_keyed (l : list (Z * objid)) : list (Z * objid) :=
  match l with
  | [] => []
  | x :: l' => insert_keyed x (sorted_keyed l')
  end.

(** [key=lambda sprite: sprite.rect.centery], evaluated for one sprite. *)
Definition sprite_key (w : World) (i : objid) : option (Z * objid) :=
  s ← w !! i; Some (rect_centery (rect (tile s)), i).

(** [sorted(self.sprites(), key=lambda sprite: sprite.rect.centery)]: the
    keys are all read before the loop starts. *)
Definition camera_order (w : World) (ids : list objid) : option (list objid) :=
  keyed ← mapM (sprite_key w) ids; Some (snd <$> sorted_keyed keyed).

(** The body of the loop of [camera_update] for one sprite.  Every attribute
    is read from the world at the moment the statement runs. *)
Definition camera_step (player : objid) (sprite : objid) (w : World) : option World :=
  s ← w !! sprite;
  let prevDirection := compass (tile s) in
  p ← w !! player;
  let w := <[sprite := sprite_set_compass (Vector2_scale (compass (tile p)) (-1)) s]> w in
  s ← w !! sprite;
  p ← w !! player;
  let w := <[sprite := sprite_move (speed p) s]> w in
  s ← w !! sprite;
  Some (<[sprite := sprite_set_compass prevDirection s]> w).

Fixpoint camera_loop (player : objid) (order : list objid) (w : World) : option World :=
  match order with
  | [] => Some w
  | sprite :: rest => w' ← camera_step player sprite w; camera_loop player rest w'
  end.

Definition camera_update (self : CameraManager) (w : World) : option World :=
  order ← camera_order w (sprites self);
  camera_loop (playerCharacter self) order w.

(** The same loop keeping a record of its passes: each pass runs the body for
    its sprite and then notes the sprite at the end of the record, so the
    record lists the sprites in the order in which [sprite.move] was called
    on them. *)
Fixpoint camera_loop_log (player : objid) (order : list objid)
    (st : World * list objid) : option (World * list objid) :=
  match order with
  | [] => Some st
  | sprite :: rest =>
      w' ← camera_step player sprite (fst st);
      camera_loop_log player rest (w', snd st ++ [sprite])
  end.

Definition camera_update_log (self : CameraManager) (w : World)
  : option (World * list objid) :=
  order ← camera_order w (sprites self);
  camera_loop_log (playerCharacter self) order (w, []).

(** The key [camera_update] sorts by, for an identifier of the world. *)
Definition centery_of (w : World) (i : objid) : Z :=
  from_option (fun s => rect_centery (rect (tile s))) 0 (w !! i).

(** The order of the keys of paired items, and of the identifiers of a world
    by the key [camera_update] sorts by. *)
Definition key_le (a b : Z * objid) : Prop := fst a <= fst b.
Definition centery_le (w : World) (a b : objid) : Prop :=
  centery_of w a <= centery_of w b.

(** The claimed effect of one [camera_update] on a sprite, for the player's
    heading [H] and speed [S]: the sprite's own [move S] under the heading
    [-H], with the sprite's heading put back afterwards. *)
Definition moved_against (H : Vector2) (S : Z) (s : Sprite) : Sprite :=
  with_tile
    (with_compass (compass (tile s))
       (move S (with_compass (Vector2_scale H (-1)) (tile s)))) s.

(** A small world: a player heading right at speed 2 and three terrain tiles
    at different heights, held by the camera in the order 7, 3, 5. *)
Definition world3 : World :=
  <[1%nat := mkSprite (mkTile (mkSurface 16 20) (mkRect 200 150 16 20) (OwnRect (mkRect 200 155 16 10))
                    (mkVector2 1 0) (mkTracker 0 0) []) 2]>
  (<[3%nat := mkSprite (new_tile [] (0, 64) (mkSurface 16 16)) 0]>
  (<[5%nat := mkSprite (new_tile [] (16, 0) (mkSurface 16 16)) 0]>
  (<[7%nat := mkSprite (new_tile [] (32, 128) (mkSurface 16 16)) 0]> ∅))).

Definition camera3 : CameraManager :=
  mkCameraManager [7%nat; 3%nat; 5%nat] 1%nat 320 240 Vector2_zero.

(* ===================================================================== *)
(** ** Damsel *)
(* ===================================================================== *)

(** Modelled from the spec: [entities/entity.py] (class [Entity]) is not among
    the sources.  The spec gives an entity a speed and "a looping animation
    keyed by current heading", advanced by "an internal frame counter" with
    "a counter compared against a fixed divisor". *)
Record Animation : Type := mkAnimation {
  status : string;
  frameIndex : nat;
  animationCounter : nat
}.

(** The attributes of a [Damsel]: those of [Tile], those of [Entity], and the
    ones its constructor and [update] assign. *)
Record Damsel : Type := mkDamsel {
  damsel_tile : Tile;
  damsel_speed : Z;
  damsel_animation : Animation;
  timer : Z;
  obstacle_sprites : list objid;
  enemy_sprites : option (list objid);
  friendly_sprites : option (list objid)
}.

Definition SPRITE_WIDTH : Z := 16.
Definition SPRITE_HEIGHT : Z := 20.

(** The rectangles [Damsel.__init__] assigns for a start position [pos]: the
    render rectangle of the 16x20 image and a hitbox ten pixels less tall. *)
Definition damsel_rect (pos : Z * Z) : Rect :=
  get_rect (mkSurface SPRITE_WIDTH SPRITE_HEIGHT) pos.

Definition damsel_hitbox (pos : Z * Z) : HitboxRef :=
  OwnRect (rect_inflate 0 (-10) (damsel_rect pos)).

(** What [Damsel.__init__] assigns, for a start position, the groups and the
    obstacle sprites; the speed and the animation state come from the
    constructor of [Entity]. *)
Definition Damsel_init (pos : Z * Z) (grps : list string) (obstacles : list objid)
    (entity_speed : Z) (entity_animation : Animation) : Damsel :=
  mkDamsel
    (mkTile (mkSurface SPRITE_WIDTH SPRITE_HEIGHT) (damsel_rect pos) (damsel_hitbox pos)
            Vector2_zero (mkTracker 0 0) grps)
    entity_speed entity_animation 100 obstacles None None.

(** How a method call ends. *)
Inductive Outcome (A : Type) : Type :=
| Returned (a : A)
| Raised (e : string).
Arguments Returned {A} a.
Arguments Raised {A} e.

(** [collision_handler(self, direction)]: the body is a bare [return].  The
    argument may be any Python value. *)
Definition collision_handler {A : Type} (direction : A) (self : Damsel)
  : Outcome (unit * Damsel) :=
  Returned (tt, self).

(* ===================================================================== *)
(** ** Further vocabulary for the movement methods *)
(* ===================================================================== *)

(** The direction facing a direction. *)
Definition opposite (d : Dir) : Dir :=
  match d with
  | Up => Down
  | Down => Up
  | Left => Right
  | Right => Left
  end.

(** The pixel offset of one shift of [speed] in a direction. *)
Definition shift_dx (d : Dir) (speed : Z) : Z :=
  match d with Left => - speed | Right => speed | _ => 0 end.
Definition shift_dy (d : Dir) (speed : Z) : Z :=
  match d with Up => - speed | Down => speed | _ => 0 end.

(** What no movement method is meant to touch: the image, the groups and the
    sizes of the two rectangles. *)
Definition tile_shape (self : Tile) : Surface * list string * (Z * Z) * (Z * Z) :=
  (image self, groups self, rect_size (rect self), rect_size (hitbox_rect self)).

(** The hitbox sits on the center of the render rectangle. *)
Definition hitbox_centered (self : Tile) : Prop :=
  rect_center (hitbox_rect self) = rect_center (rect self).

(** A heading with components among -1, 0 and 1, as the class documents it. *)
Definition unit_heading (c : Vector2) : Prop :=
  -1 <= vec_x c <= 1 /\ -1 <= vec_y c <= 1.

(** The tracker holds no movement on either axis. *)
Definition at_rest (self : Tile) : Prop :=
  movementTracker self = mkTracker 0 0.

(** [n] calls of [move speed] in a row. *)
Definition moves (n : nat) (speed : Z) (self : Tile) : Tile :=
  Nat.iter n (move speed) self.

(** The damsel's tile right after [Damsel.__init__], heading down. *)
Definition damsel_tile_40_60 : Tile :=
  mkTile (mkSurface SPRITE_WIDTH SPRITE_HEIGHT) (damsel_rect (40, 60))
         (damsel_hitbox (40, 60)) (mkVector2 0 1) (mkTracker 0 0) [].

(* ===================================================================== *)
(** ** CameraManager: the constructor *)
(* ===================================================================== *)

(** [CameraManager.__init__(playerCharacter)], for the size of the display
    surface: an empty group, the halves of the size by floor division, a zero
    offset and the player. *)
Definition CameraManager_init (display_size : Z * Z) (player : objid) : CameraManager :=
  let surfaceX := fst display_size in
  let surfaceY := snd display_size in
  mkCameraManager [] player (Z.div surfaceX 2) (Z.div surfaceY 2) Vector2_zero.

(** A world in which the player (object 1) stands still; the tiles 5 and 7
    are at the same height. *)
Definition world_idle : World :=
  <[1%nat := mkSprite (mkTile (mkSurface 16 20) (mkRect 200 150 16 20)
                         (OwnRect (mkRect 200 155 16 10))
                         Vector2_zero (mkTracker 0 0) []) 2]>
  (<[3%nat := mkSprite (new_tile [] (0, 64) (mkSurface 16 16)) 0]>
  (<[5%nat := mkSprite (new_tile [] (16, 0) (mkSurface 16 16)) 0]>
  (<[7%nat := mkSprite (new_tile [] (48, 0) (mkSurface 16 16)) 0]> ∅))).

Definition camera_idle : CameraManager :=
  mkCameraManager [3%nat; 5%nat] 1%nat 320 240 Vector2_zero.

(** A camera that also holds the player of [world3]. *)
Definition camera_with_player : CameraManager :=
  mkCameraManager [7%nat; 1%nat; 3%nat] 1%nat 320 240 Vector2_zero.

(* ===================================================================== *)
(** ** die *)
(* ===================================================================== *)

Definition with_groups (g : list string) (self : Tile) : Tile :=
  mkTile (image self) (rect self) (hitbox self) (compass self) (movementTracker self) g.

(** pygame keeps membership on both sides: a sprite lists its groups
    ([Tile.groups]) and every group lists its sprites, here by group name in
    the order the sprites were added.  A camera is one of these groups (see
    [camera_in]). *)
Abbreviation Groups := (gmap string (list objid)).

(** The sprites of a group; a name never used is an empty group. *)
Definition members (gs : Groups) (g : string) : list objid :=
  default [] (gs !! g).

(** [CameraManager] is a pygame Group: on a stage where it is registered
    under [name], the sprites it holds are the members of that group, and
    [kill] takes a sprite out of it as out of any other group. *)
Definition camera_in (gs : Groups) (name : string) (cam : CameraManager) : CameraManager :=
  mkCameraManager (members gs name) (playerCharacter cam)
                  (halfWidth cam) (halfHeight cam) (offset cam).

(** [group.remove_internal(sprite)] *)
Definition remove_internal (i : objid) (l : list objid) : list objid :=
  filter (fun j => j <> i) l.

(** [pygame.sprite.Sprite.kill()]: the sprite is taken out of every group
    it lists, then its own list is cleared. *)
Definition kill (i : objid) (st : World * Groups) : option (World * Groups) :=
  s ← fst st !! i;
  Some (<[i := with_tile (with_groups [] (tile s)) s]> (fst st),
        foldr (fun g gs => alter (remove_internal i) g gs) (snd st) (groups (tile s))).

(** [Tile.die]: [self.kill()]. *)
Definition die (i : objid) (st : World * Groups) : option (World * Groups) :=
  kill i st.

(** The sprite lists every group that holds it: whatever group has the
    sprite among its members is in the sprite's own list of groups. *)
Definition linked (st : World * Groups) (i : objid) : Prop :=
  forall g, i ∈ members (snd st) g ->
    exists s, fst st !! i = Some s /\ g ∈ groups (tile s).

(** Two terrain tiles in the groups "visible" and "obstacle". *)
Definition stage2 : World * Groups :=
  (<[3%nat := mkSprite (new_tile ["visible"%string; "obstacle"%string] (0, 64)
                          (mkSurface 16 16)) 0]>
   (<[5%nat := mkSprite (new_tile ["visible"%string] (16, 0) (mkSurface 16 16)) 0]> ∅),
   <["visible"%string := [3%nat; 5%nat]]> (<["obstacle"%string := [3%nat]]> ∅)).

(** A camera on [stage2], registered as the group "visible", following
    object 5. *)
Definition camera_on_stage2 : CameraManager :=
  mkCameraManager [] 5%nat 320 240 Vector2_zero.

(* ===================================================================== *)
(** ** Rectangles *)
(* ===================================================================== *)

Lemma rect_center_set_center (c : Z * Z) (r : Rect) :
  rect_center (rect_set_center c r) = c.
Proof.
  destruct c as [cx cy]; destruct r as [x y w h].
  unfold rect_center, rect_centerx, rect_centery, rect_set_center.
  cbn [fst snd rect_left rect_top rect_width rect_height].
  generalize (Z.shiftr w 1) (Z.shiftr h 1); intros a b.
  f_equal; lia.
Qed.

Lemma rect_set_center_same (r : Rect) : rect_set_center (rect_center r) r = r.
Proof.
  destruct r as [x y w h].
  unfold rect_center, rect_centerx, rect_centery, rect_set_center.
  cbn [fst snd rect_left rect_top rect_width rect_height].
  generalize (Z.shiftr w 1) (Z.shiftr h 1); intros a b.
  f_equal; lia.
Qed.

Lemma rect_size_set_center (c : Z * Z) (r : Rect) :
  rect_size (rect_set_center c r) = rect_size r.
Proof. reflexivity. Qed.

(** [inflate] keeps the center when the change of size is even. *)
Lemma damsel_hitbox_centered (pos : Z * Z) :
  rect_center (rect_inflate 0 (-10) (damsel_rect pos)) = rect_center (damsel_rect pos).
Proof.
  destruct pos as [x y].
  unfold rect_center, rect_centerx, rect_centery, rect_inflate, damsel_rect, get_rect.
  cbn [fst snd rect_left rect_top rect_width rect_height surf_width surf_height].
  change (Z.quot 0 2) with 0. change (Z.quot (-10) 2) with (-5).
  change (Z.shiftr (SPRITE_WIDTH + 0) 1) with 8.
  change (Z.shiftr (SPRITE_HEIGHT + -10) 1) with 5.
  change (Z.shiftr SPRITE_WIDTH 1) with 8.
  change (Z.shiftr SPRITE_HEIGHT 1) with 10.
  f_equal; lia.
Qed.

(* ===================================================================== *)
(** ** The shift primitives *)
(* ===================================================================== *)

(** Re-centring the hitbox never moves the render rectangle, also when both
    are one object. *)
Lemma rect_sync_hitbox (self : Tile) : rect (sync_hitbox self) = rect self.
Proof.
  unfold sync_hitbox. destruct (hitbox self); simpl; [apply rect_set_center_same | reflexivity].
Qed.

Lemma sync_hitbox_centered (self : Tile) :
  rect_center (hitbox_rect (sync_hitbox self)) = rect_center (rect (sync_hitbox self)).
Proof.
  unfold sync_hitbox, hitbox_rect.
  destruct (hitbox self) eqn:E; simpl; rewrite ?E; simpl.
  - reflexivity.
  - apply rect_center_set_center.
Qed.

Lemma sync_hitbox_alias (self : Tile) :
  hitbox self = SameAsRect -> sync_hitbox self = self.
Proof.
  intros E. unfold sync_hitbox. rewrite E.
  rewrite rect_set_center_same. destruct self; reflexivity.
Qed.

Lemma compass_sync_hitbox (self : Tile) : compass (sync_hitbox self) = compass self.
Proof. unfold sync_hitbox. destruct (hitbox self); reflexivity. Qed.

Lemma tracker_sync_hitbox (self : Tile) :
  movementTracker (sync_hitbox self) = movementTracker self.
Proof. unfold sync_hitbox. destruct (hitbox self); reflexivity. Qed.

Lemma hitbox_alias_sync_hitbox (self : Tile) :
  hitbox self = SameAsRect -> hitbox (sync_hitbox self) = SameAsRect.
Proof. intros E. rewrite sync_hitbox_alias; assumption. Qed.

(** A primitive shifts the render rectangle by [speed] along its axis. *)
Lemma rect__move_dir (d : Dir) (speed : Z) (self : Tile) :
  rect (_move_dir d speed self) =
  match d with
  | Up => rect_move_ip 0 (- speed) (rect self)
  | Down => rect_move_ip 0 speed (rect self)
  | Left => rect_move_ip (- speed) 0 (rect self)
  | Right => rect_move_ip speed 0 (rect self)
  end.
Proof.
  destruct d; simpl;
    unfold _move_up, _move_down, _move_left, _move_right;
    rewrite rect_sync_hitbox; simpl; f_equal; lia.
Qed.

Lemma compass__move_dir (d : Dir) (speed : Z) (self : Tile) :
  compass (_move_dir d speed self) = compass self.
Proof.
  destruct d; simpl;
    unfold _move_up, _move_down, _move_left, _move_right;
    rewrite compass_sync_hitbox; reflexivity.
Qed.

Lemma tracker__move_dir (d : Dir) (speed : Z) (self : Tile) :
  movementTracker (_move_dir d speed self) = movementTracker self.
Proof.
  destruct d; simpl;
    unfold _move_up, _move_down, _move_left, _move_right;
    rewrite tracker_sync_hitbox; reflexivity.
Qed.

Lemma hitbox_alias__move_dir (d : Dir) (speed : Z) (self : Tile) :
  hitbox self = SameAsRect -> hitbox (_move_dir d speed self) = SameAsRect.
Proof.
  intros E.
  destruct d; simpl;
    unfold _move_up, _move_down, _move_left, _move_right;
    apply hitbox_alias_sync_hitbox; exact E.
Qed.

(** C6.  After the pixel shift of any of the four primitives [_move_left],
    [_move_right], [_move_up], [_move_down], for every speed and every
    starting tile, the center of the collision rectangle equals the center of
    the render rectangle. *)
Theorem primitive_shift_centers_hitbox (d : Dir) (speed : Z) (self : Tile) :
  rect_center (hitbox_rect (_move_dir d speed self)) =
  rect_center (rect (_move_dir d speed self)).
Proof.
  destruct d; simpl;
    unfold _move_up, _move_down, _move_left, _move_right;
    apply sync_hitbox_centered.
Qed.

(** The damsel's hitbox is a rectangle of its own: after a shift it has the
    center of the render rectangle and keeps its own, smaller size. *)
Example damsel_shift_keeps_hitbox_size :
  let t := mkTile (mkSurface SPRITE_WIDTH SPRITE_HEIGHT) (damsel_rect (40, 60))
                  (damsel_hitbox (40, 60)) Vector2_zero (mkTracker 0 0) [] in
  rect (_move_left 3 t) = mkRect 37 60 16 20 /\
  hitbox_rect (_move_left 3 t) = mkRect 37 65 16 10.
Proof. split; reflexivity. Qed.

(* ===================================================================== *)
(** ** One [move] step *)
(* ===================================================================== *)

Lemma rect_move_vertical (speed : Z) (self : Tile) :
  rect (move_vertical speed self) =
  if vertical (movementTracker self) <=? Direction.up
  then rect_move_ip 0 (- speed) (rect self)
  else if vertical (movementTracker self) >=? Direction.down
       then rect_move_ip 0 speed (rect self)
       else rect self.
Proof.
  unfold move_vertical.
  destruct (vertical (movementTracker self) <=? Direction.up).
  - exact (rect__move_dir Up speed self).
  - destruct (vertical (movementTracker self) >=? Direction.down).
    + exact (rect__move_dir Down speed self).
    + reflexivity.
Qed.

Lemma rect_move_horizontal (speed : Z) (self : Tile) :
  rect (move_horizontal speed self) =
  if horizontal (movementTracker self) <=? Direction.left
  then rect_move_ip (- speed) 0 (rect self)
  else if horizontal (movementTracker self) >=? Direction.right
       then rect_move_ip speed 0 (rect self)
       else rect self.
Proof.
  unfold move_horizontal.
  destruct (horizontal (movementTracker self) <=? Direction.left).
  - exact (rect__move_dir Left speed self).
  - destruct (horizontal (movementTracker self) >=? Direction.right).
    + exact (rect__move_dir Right speed self).
    + reflexivity.
Qed.

Lemma tracker_move_vertical (speed : Z) (self : Tile) :
  movementTracker (move_vertical speed self) =
  mkTracker
    (if vertical (movementTracker self) <=? Direction.up
     then vertical (movementTracker self) + Direction.down
     else if vertical (movementTracker self) >=? Direction.down
          then vertical (movementTracker self) + Direction.up
          else vertical (movementTracker self))
    (horizontal (movementTracker self)).
Proof.
  unfold move_vertical.
  destruct (vertical (movementTracker self) <=? Direction.up).
  - unfold add_vertical; cbn [movementTracker with_tracker].
    change (_move_up speed self) with (_move_dir Up speed self).
    rewrite tracker__move_dir. reflexivity.
  - destruct (vertical (movementTracker self) >=? Direction.down).
    + unfold add_vertical; cbn [movementTracker with_tracker].
      change (_move_down speed self) with (_move_dir Down speed self).
      rewrite tracker__move_dir. reflexivity.
    + destruct (movementTracker self); reflexivity.
Qed.

Lemma tracker_move_horizontal (speed : Z) (self : Tile) :
  movementTracker (move_horizontal speed self) =
  mkTracker
    (vertical (movementTracker self))
    (if horizontal (movementTracker self) <=? Direction.left
     then horizontal (movementTracker self) + Direction.right
     else if horizontal (movementTracker self) >=? Direction.right
          then horizontal (movementTracker self) + Direction.left
          else horizontal (movementTracker self)).
Proof.
  unfold move_horizontal.
  destruct (horizontal (movementTracker self) <=? Direction.left).
  - unfold add_horizontal; cbn [movementTracker with_tracker].
    change (_move_left speed self) with (_move_dir Left speed self).
    rewrite tracker__move_dir. reflexivity.
  - destruct (horizontal (movementTracker self) >=? Direction.right).
    + unfold add_horizontal; cbn [movementTracker with_tracker].
      change (_move_right speed self) with (_move_dir Right speed self).
      rewrite tracker__move_dir. reflexivity.
    + destruct (movementTracker self); reflexivity.
Qed.

Lemma compass_move_vertical (speed : Z) (self : Tile) :
  compass (move_vertical speed self) = compass self.
Proof.
  unfold move_vertical.
  destruct (vertical (movementTracker self) <=? Direction.up);
    [exact (compass__move_dir Up speed self) |].
  destruct (vertical (movementTracker self) >=? Direction.down);
    [exact (compass__move_dir Down speed self) | reflexivity].
Qed.

Lemma compass_move_horizontal (speed : Z) (self : Tile) :
  compass (move_horizontal speed self) = compass self.
Proof.
  unfold move_horizontal.
  destruct (horizontal (movementTracker self) <=? Direction.left);
    [exact (compass__move_dir Left speed self) |].
  destruct (horizontal (movementTracker self) >=? Direction.right);
    [exact (compass__move_dir Right speed self) | reflexivity].
Qed.

(** [move] reads the heading and never writes it. *)
Lemma compass_move (speed : Z) (self : Tile) :
  compass (move speed self) = compass self.
Proof.
  unfold move. rewrite compass_move_horizontal, compass_move_vertical. reflexivity.
Qed.

Lemma compass_iter_move (speed : Z) (n : nat) (self : Tile) :
  compass (Nat.iter n (move speed) self) = compass self.
Proof.
  induction n as [|n IH]; [reflexivity |].
  cbn [Nat.iter nat_rect]. rewrite compass_move. exact IH.
Qed.

Lemma hitbox_alias_move (speed : Z) (self : Tile) :
  hitbox self = SameAsRect -> hitbox (move speed self) = SameAsRect.
Proof.
  intros E. unfold move, move_horizontal, move_vertical.
  set (t0 := update_movement_tracker self).
  assert (E0 : hitbox t0 = SameAsRect) by exact E.
  set (t1 := if vertical (movementTracker t0) <=? Direction.up then _ else _).
  assert (E1 : hitbox t1 = SameAsRect).
  { subst t1.
    destruct (vertical (movementTracker t0) <=? Direction.up);
      [exact (hitbox_alias__move_dir Up speed t0 E0) |].
    destruct (vertical (movementTracker t0) >=? Direction.down);
      [exact (hitbox_alias__move_dir Down speed t0 E0) | exact E0]. }
  destruct (horizontal (movementTracker t1) <=? Direction.left);
    [exact (hitbox_alias__move_dir Left speed t1 E1) |].
  destruct (horizontal (movementTracker t1) >=? Direction.right);
    [exact (hitbox_alias__move_dir Right speed t1 E1) | exact E1].
Qed.

(** The horizontal and the vertical displacement of the render rectangle in
    one [move] call, read off the thresholds the advanced tracker reaches. *)
Lemma move_displacement (speed : Z) (self : Tile) :
  rect_left (rect (move speed self)) - rect_left (rect self) =
    (if crosses_left self then - speed
     else if crosses_right self then speed else 0) /\
  rect_top (rect (move speed self)) - rect_top (rect self) =
    (if crosses_up self then - speed
     else if crosses_down self then speed else 0) /\
  rect_size (rect (move speed self)) = rect_size (rect self).
Proof.
  unfold move. rewrite rect_move_horizontal, tracker_move_vertical, rect_move_vertical.
  unfold crosses_left, crosses_right, crosses_up, crosses_down.
  unfold update_movement_tracker, add_vertical, add_horizontal.
  cbn [movementTracker with_tracker rect vertical horizontal compass].
  destruct (horizontal (movementTracker self) + vec_x (compass self) <=? Direction.left);
  destruct (horizontal (movementTracker self) + vec_x (compass self) >=? Direction.right);
  destruct (vertical (movementTracker self) + vec_y (compass self) <=? Direction.up);
  destruct (vertical (movementTracker self) + vec_y (compass self) >=? Direction.down);
  unfold rect_move_ip, rect_size;
  cbn [rect_left rect_top rect_width rect_height];
  repeat split; lia.
Qed.

(** C5.  A sprite whose render rectangle is at (100,100), with heading (1,0)
    and both tracker components 0 (whatever its size, image, hitbox and
    groups): in one [move] call at speed 4 the horizontal tracker is advanced
    to 1, which reaches the right threshold; the render rectangle ends at
    (104,100) and the tracker is back at 0 on both axes. *)
Theorem move_example_100_100
  (img : Surface) (w h : Z) (hb : HitboxRef) (grps : list string) :
  let self := mkTile img (mkRect 100 100 w h) hb (mkVector2 1 0) (mkTracker 0 0) grps in
  horizontal (movementTracker (update_movement_tracker self)) = 1 /\
  crosses_right self = true /\
  rect_topleft (rect (move 4 self)) = (104, 100) /\
  rect_size (rect (move 4 self)) = (w, h) /\
  movementTracker (move 4 self) = mkTracker 0 0.
Proof.
  intros self.
  split; [reflexivity |]. split; [reflexivity |].
  repeat split.
  - unfold rect_topleft.
    destruct (move_displacement 4 self) as (Hx & Hy & _).
    change (crosses_left self) with false in Hx.
    change (crosses_right self) with true in Hx.
    change (crosses_up self) with false in Hy.
    change (crosses_down self) with false in Hy.
    cbn [rect rect_left rect_top self] in Hx, Hy.
    cbn iota in Hx, Hy.
    f_equal; lia.
  - destruct (move_displacement 4 self) as (_ & _ & Hs). exact Hs.
  - unfold move. rewrite tracker_move_horizontal, tracker_move_vertical. reflexivity.
Qed.

(** C2, as amended.  In every call of a sequence of [move speed] calls (the
    heading stays what it was), the render rectangle moves along an axis by
    exactly [speed] pixels, towards the threshold reached, when the advanced
    tracker of that axis reaches a threshold, and not at all along that axis
    otherwise; so it never moves by more than [|speed|] pixels along an axis
    in one call, and its size is kept. *)
Theorem move_shifts_speed_pixels_per_crossing (speed : Z) (n : nat) (self : Tile) :
  let t := Nat.iter n (move speed) self in
  compass t = compass self /\
  move_dx speed t =
    (if crosses_left t then - speed else if crosses_right t then speed else 0) /\
  move_dy speed t =
    (if crosses_up t then - speed else if crosses_down t then speed else 0) /\
  Z.abs (move_dx speed t) <= Z.abs speed /\
  Z.abs (move_dy speed t) <= Z.abs speed /\
  rect_size (rect (move speed t)) = rect_size (rect t).
Proof.
  intros t. unfold move_dx, move_dy.
  destruct (move_displacement speed t) as (Hx & Hy & Hs).
  split; [apply compass_iter_move |].
  split; [exact Hx |]. split; [exact Hy |].
  rewrite Hx, Hy.
  repeat split; try exact Hs;
    repeat match goal with |- context [if ?b then _ else _] => destruct b end; lia.
Qed.

(** C2, as stated, fails: at speed 4 the tile at (100,100) heading right moves
    four pixels in one call. *)
Lemma one_pixel_step_fails_at_speed_4 : ~ one_pixel_step 4 tile_heading_right.
Proof.
  intros (_ & _ & Hx & _).
  vm_compute in Hx. apply Hx. reflexivity.
Qed.

(** At speed 1 the step is the one pixel of the spec. *)
Lemma one_pixel_step_at_speed_1 (self : Tile) : one_pixel_step 1 self.
Proof.
  unfold one_pixel_step, move_dx, move_dy.
  destruct (move_displacement 1 self) as (Hx & Hy & _).
  rewrite Hx, Hy.
  assert (Hl : crosses_left self = true -> crosses_right self = false).
  { unfold crosses_left, crosses_right, Direction.left, Direction.right. lia. }
  assert (Hu : crosses_up self = true -> crosses_down self = false).
  { unfold crosses_up, crosses_down, Direction.up, Direction.down. lia. }
  destruct (crosses_left self), (crosses_right self),
           (crosses_up self), (crosses_down self);
    cbn [orb]; repeat split; intros; try lia; try discriminate.
Qed.

(* ===================================================================== *)
(** ** The directional calls *)
(* ===================================================================== *)

(** What each directional call does: it writes both components of the heading
    and calls the shift primitive of its direction; the tracker is not read. *)
Lemma move_dir_unfold (d : Dir) (speed : Z) (self : Tile) :
  move_dir d speed self =
  _move_dir d speed
    (with_compass (match d with Left => unit_vector Right | _ => unit_vector d end) self).
Proof. destruct d; reflexivity. Qed.

(** [move_up], [move_down] and [move_right] leave the heading at the unit
    vector of their direction. *)
Lemma move_dir_heading (d : Dir) (speed : Z) (self : Tile) :
  d <> Left -> compass (move_dir d speed self) = unit_vector d.
Proof.
  intros Hd. rewrite move_dir_unfold, compass__move_dir.
  destruct d; [reflexivity | reflexivity | contradiction | reflexivity].
Qed.

(** C1, on the code.  [move_left] writes [Direction.right] into the heading:
    after [move_left speed], for every speed and starting tile, the heading is
    the right-pointing unit vector and not the left-pointing one, although
    the render rectangle has been shifted to the left. *)
Theorem move_left_heading_points_right (speed : Z) (self : Tile) :
  compass (move_left speed self) = unit_vector Right /\
  compass (move_left speed self) <> unit_vector Left /\
  rect_left (rect (move_left speed self)) = rect_left (rect self) - speed.
Proof.
  change (move_left speed self) with (move_dir Left speed self).
  rewrite move_dir_unfold, compass__move_dir, rect__move_dir.
  split; [reflexivity |]. split; [discriminate |].
  unfold rect_move_ip; cbn [rect_left rect with_compass]. lia.
Qed.

(** C8.  For every two speeds and every starting tile (so every starting
    heading), [move_left] followed by [move_up] leaves the heading at
    (0, up): nothing of the earlier call's axis is kept. *)
Theorem move_left_then_move_up_heading (speed1 speed2 : Z) (self : Tile) :
  compass (move_up speed2 (move_left speed1 self)) = mkVector2 0 Direction.up.
Proof.
  change (move_up speed2 ?t) with (_move_dir Up speed2
    (set_compass_y Direction.up (set_compass_x 0 t))).
  rewrite compass__move_dir. reflexivity.
Qed.

(** The tracker is a field apart: the shift primitives pass it through. *)
Lemma update_movement_tracker_eq (self : Tile) :
  update_movement_tracker self =
  with_tracker (mkTracker (vertical (movementTracker self) + vec_y (compass self))
                          (horizontal (movementTracker self) + vec_x (compass self)))
               self.
Proof. reflexivity. Qed.

Lemma tracker_with_tracker (m : MovementTracker) (self : Tile) :
  movementTracker (with_tracker m self) = m.
Proof. reflexivity. Qed.

Lemma with_tracker_twice (m m' : MovementTracker) (self : Tile) :
  with_tracker m (with_tracker m' self) = with_tracker m self.
Proof. reflexivity. Qed.

Lemma with_tracker_same_as (m : MovementTracker) (self : Tile) :
  movementTracker self = m -> self = with_tracker m self.
Proof. intros <-. destruct self; reflexivity. Qed.

Lemma tracker_add_vertical (d : Z) (self : Tile) :
  movementTracker (add_vertical d self) =
  mkTracker (vertical (movementTracker self) + d) (horizontal (movementTracker self)).
Proof. reflexivity. Qed.

Lemma _move_dir_with_tracker (d : Dir) (speed : Z) (m : MovementTracker) (self : Tile) :
  _move_dir d speed (with_tracker m self) = with_tracker m (_move_dir d speed self).
Proof.
  destruct d; cbn [_move_dir];
    unfold _move_up, _move_down, _move_left, _move_right, sync_hitbox, rect_move;
    cbn [hitbox with_rect with_tracker]; destruct (hitbox self); reflexivity.
Qed.

(** The branches of [move], by the position of the tracker. *)
Lemma move_vertical_at_up (speed : Z) (self : Tile) :
  vertical (movementTracker self) <= Direction.up ->
  move_vertical speed self = add_vertical Direction.down (_move_dir Up speed self).
Proof.
  intros Hv. unfold move_vertical.
  replace (vertical (movementTracker self) <=? Direction.up) with true by lia.
  reflexivity.
Qed.

Lemma move_vertical_at_down (speed : Z) (self : Tile) :
  Direction.up < vertical (movementTracker self) ->
  Direction.down <= vertical (movementTracker self) ->
  move_vertical speed self = add_vertical Direction.up (_move_dir Down speed self).
Proof.
  intros Hu Hv. unfold move_vertical.
  replace (vertical (movementTracker self) <=? Direction.up) with false by lia.
  replace (vertical (movementTracker self) >=? Direction.down) with true by lia.
  reflexivity.
Qed.

Lemma move_vertical_idle (speed : Z) (self : Tile) :
  Direction.up < vertical (movementTracker self) < Direction.down ->
  move_vertical speed self = self.
Proof.
  intros Hv. unfold move_vertical.
  replace (vertical (movementTracker self) <=? Direction.up) with false by lia.
  replace (vertical (movementTracker self) >=? Direction.down) with false by lia.
  reflexivity.
Qed.

Lemma move_horizontal_at_right (speed : Z) (self : Tile) :
  Direction.left < horizontal (movementTracker self) ->
  Direction.right <= horizontal (movementTracker self) ->
  move_horizontal speed self = add_horizontal Direction.left (_move_dir Right speed self).
Proof.
  intros Hl Hh. unfold move_horizontal.
  replace (horizontal (movementTracker self) <=? Direction.left) with false by lia.
  replace (horizontal (movementTracker self) >=? Direction.right) with true by lia.
  reflexivity.
Qed.

Lemma move_horizontal_idle (speed : Z) (self : Tile) :
  Direction.left < horizontal (movementTracker self) < Direction.right ->
  move_horizontal speed self = self.
Proof.
  intros Hh. unfold move_horizontal.
  replace (horizontal (movementTracker self) <=? Direction.left) with false by lia.
  replace (horizontal (movementTracker self) >=? Direction.right) with false by lia.
  reflexivity.
Qed.

(** With a heading whose components are -1, 0 or 1, a tracker at rest is at
    rest again after [move]: every advance of one unit is shifted out at
    once.  The directional calls never touch the tracker. *)
Lemma move_keeps_tracker_at_rest (speed : Z) (self : Tile) :
  -1 <= vec_x (compass self) <= 1 ->
  -1 <= vec_y (compass self) <= 1 ->
  movementTracker self = mkTracker 0 0 ->
  movementTracker (move speed self) = mkTracker 0 0.
Proof.
  intros Hx Hy Hm. unfold move.
  rewrite tracker_move_horizontal, tracker_move_vertical, update_movement_tracker_eq.
  rewrite tracker_with_tracker, Hm. cbn [vertical horizontal].
  unfold Direction.up, Direction.down, Direction.left, Direction.right.
  f_equal.
  - destruct (Z.leb_spec (0 + vec_y (compass self)) (-1));
      [lia | destruct (Z.geb_spec (0 + vec_y (compass self)) 1); lia].
  - destruct (Z.leb_spec (0 + vec_x (compass self)) (-1));
      [lia | destruct (Z.geb_spec (0 + vec_x (compass self)) 1); lia].
Qed.

Lemma tracker_move_dir (d : Dir) (speed : Z) (self : Tile) :
  movementTracker (move_dir d speed self) = movementTracker self.
Proof. rewrite move_dir_unfold, tracker__move_dir. reflexivity. Qed.

(** C3, as amended.  For the directions up, down and right, every speed and
    every starting tile whose tracker is at rest (0 on both axes), the
    directional call ends in the same state as pointing the heading in that
    direction and then calling [move speed] once. *)
Theorem directional_call_is_heading_then_move (d : Dir) (speed : Z) (self : Tile) :
  d <> Left ->
  movementTracker self = mkTracker 0 0 ->
  move_dir d speed self = set_heading_then_move d speed self.
Proof.
  intros Hd Hm.
  assert (Hready : vertical (movementTracker self) = 0 /\
                   horizontal (movementTracker self) = 0)
    by (rewrite Hm; split; reflexivity).
  clear Hm.
  rewrite move_dir_unfold. unfold set_heading_then_move.
  destruct d; [| | contradiction |];
    unfold move; rewrite update_movement_tracker_eq;
    cbn [compass movementTracker with_compass];
    unfold unit_vector, Direction.up, Direction.down, Direction.left, Direction.right;
    cbn [vec_x vec_y].
  - (* up *)
    rewrite move_vertical_at_up
      by (cbn [movementTracker with_tracker vertical]; unfold Direction.up; lia).
    rewrite move_horizontal_idle
      by (rewrite tracker_add_vertical, tracker__move_dir;
          cbn [movementTracker with_tracker horizontal];
          unfold Direction.left, Direction.right; lia).
    rewrite _move_dir_with_tracker. unfold add_vertical, Direction.down.
    rewrite tracker_with_tracker, with_tracker_twice. cbn [vertical horizontal].
    apply with_tracker_same_as. rewrite tracker__move_dir.
    cbn [movementTracker with_compass].
    destruct (movementTracker self); cbn [vertical horizontal] in *; f_equal; lia.
  - (* down *)
    rewrite move_vertical_at_down
      by (cbn [movementTracker with_tracker vertical];
          unfold Direction.up, Direction.down; lia).
    rewrite move_horizontal_idle
      by (rewrite tracker_add_vertical, tracker__move_dir;
          cbn [movementTracker with_tracker horizontal];
          unfold Direction.left, Direction.right; lia).
    rewrite _move_dir_with_tracker. unfold add_vertical, Direction.up.
    rewrite tracker_with_tracker, with_tracker_twice. cbn [vertical horizontal].
    apply with_tracker_same_as. rewrite tracker__move_dir.
    cbn [movementTracker with_compass].
    destruct (movementTracker self); cbn [vertical horizontal] in *; f_equal; lia.
  - (* right *)
    rewrite move_vertical_idle
      by (cbn [movementTracker with_tracker vertical];
          unfold Direction.up, Direction.down; lia).
    rewrite move_horizontal_at_right
      by (cbn [movementTracker with_tracker horizontal];
          unfold Direction.left, Direction.right; lia).
    rewrite _move_dir_with_tracker. unfold add_horizontal, Direction.left.
    rewrite tracker_with_tracker, with_tracker_twice. cbn [vertical horizontal].
    apply with_tracker_same_as. rewrite tracker__move_dir.
    cbn [movementTracker with_compass].
    destruct (movementTracker self); cbn [vertical horizontal] in *; f_equal; lia.
Qed.

Lemma directional_call_is_heading_then_move_witness :
  Right <> Left /\
  movementTracker tile_heading_right = mkTracker 0 0 /\
  move_dir Right 4 tile_heading_right = set_heading_then_move Right 4 tile_heading_right.
Proof.
  assert (Hd : Right <> Left) by discriminate.
  assert (Hr : movementTracker tile_heading_right = mkTracker 0 0) by reflexivity.
  split; [exact Hd |]. split; [exact Hr |].
  exact (directional_call_is_heading_then_move Right 4 tile_heading_right Hd Hr).
Defined.

(** C3, as stated, fails: with the horizontal tracker at -1, [move_right 1]
    shifts the tile to x = 1 at once, while pointing the heading right and
    calling [move 1] only brings the tracker to 0 and leaves the tile at
    x = 0. *)
Lemma directional_call_differs_from_heading_then_move :
  rect_left (rect (move_dir Right 1 tile_tracker_behind)) = 1 /\
  rect_left (rect (set_heading_then_move Right 1 tile_tracker_behind)) = 0 /\
  move_dir Right 1 tile_tracker_behind <>
  set_heading_then_move Right 1 tile_tracker_behind.
Proof.
  split; [reflexivity |]. split; [reflexivity |].
  intros H. apply (f_equal (fun t => rect_left (rect t))) in H.
  vm_compute in H. discriminate H.
Qed.

(** With the tracker at rest, [move_left] still differs from pointing the
    heading left and moving: the rectangles agree, the headings do not. *)
Example move_left_differs_in_heading :
  let t := new_tile [] (100, 100) (mkSurface 16 16) in
  rect (move_dir Left 1 t) = rect (set_heading_then_move Left 1 t) /\
  compass (move_dir Left 1 t) = mkVector2 1 0 /\
  compass (set_heading_then_move Left 1 t) = mkVector2 (-1) 0.
Proof. repeat split. Qed.

(* ===================================================================== *)
(** ** The hitbox of a terrain tile *)
(* ===================================================================== *)

Lemma hitbox_alias_run_call (c : TileCall) (self : Tile) :
  hitbox self = SameAsRect -> hitbox (run_call c self) = SameAsRect.
Proof.
  intros E. destruct c as [s|s|s|s|s|s|s|s|s]; cbn [run_call].
  - apply hitbox_alias_move; exact E.
  - change (move_left s self) with (move_dir Left s self).
    rewrite move_dir_unfold. apply hitbox_alias__move_dir; exact E.
  - change (move_right s self) with (move_dir Right s self).
    rewrite move_dir_unfold. apply hitbox_alias__move_dir; exact E.
  - change (move_up s self) with (move_dir Up s self).
    rewrite move_dir_unfold. apply hitbox_alias__move_dir; exact E.
  - change (move_down s self) with (move_dir Down s self).
    rewrite move_dir_unfold. apply hitbox_alias__move_dir; exact E.
  - exact (hitbox_alias__move_dir Left s self E).
  - exact (hitbox_alias__move_dir Right s self E).
  - exact (hitbox_alias__move_dir Up s self E).
  - exact (hitbox_alias__move_dir Down s self E).
Qed.

Lemma hitbox_alias_run_calls (cs : list TileCall) (self : Tile) :
  hitbox self = SameAsRect -> hitbox (run_calls cs self) = SameAsRect.
Proof.
  revert self. induction cs as [|c cs IH]; intros self E; [exact E |].
  cbn [run_calls fold_left]. apply IH. apply hitbox_alias_run_call; exact E.
Qed.

(** C9.  After [set_tile coords surface] the hitbox is the render rectangle
    itself, and after any sequence of [move], [_move_*] (and directional)
    calls it still is: the rectangle read through the hitbox is the render
    rectangle, with the same top-left corner and the same size. *)
Theorem set_tile_hitbox_is_rect
  (coords : Z * Z) (surface : Surface) (self : Tile) (cs : list TileCall) :
  let t := run_calls cs (set_tile coords surface self) in
  hitbox t = SameAsRect /\
  hitbox_rect t = rect t /\
  rect_topleft (hitbox_rect t) = rect_topleft (rect t) /\
  rect_size (hitbox_rect t) = rect_size (rect t).
Proof.
  intros t.
  assert (E : hitbox t = SameAsRect).
  { apply hitbox_alias_run_calls. reflexivity. }
  assert (R : hitbox_rect t = rect t).
  { unfold hitbox_rect. rewrite E. reflexivity. }
  rewrite R. repeat split. exact E.
Qed.

(** A hitbox that is a rectangle of its own keeps its size through the same
    calls: only its center follows the render rectangle. *)
Example own_hitbox_differs_from_rect :
  let t := mkTile (mkSurface SPRITE_WIDTH SPRITE_HEIGHT) (damsel_rect (40, 60))
                  (damsel_hitbox (40, 60)) (mkVector2 0 1) (mkTracker 0 0) [] in
  let t' := run_calls [Call_move 2; Call__move_right 1] t in
  rect t' = mkRect 41 62 16 20 /\ hitbox_rect t' = mkRect 41 67 16 10.
Proof. split; reflexivity. Qed.

(* ===================================================================== *)
(** ** camera_update: the loop body *)
(* ===================================================================== *)

Lemma speed_moved_against (H : Vector2) (S : Z) (s : Sprite) :
  speed (moved_against H S s) = speed s.
Proof. reflexivity. Qed.

Lemma compass_moved_against (H : Vector2) (S : Z) (s : Sprite) :
  compass (tile (moved_against H S s)) = compass (tile s).
Proof. reflexivity. Qed.

(** One pass of the loop body rewrites the one sprite it is run for, also
    when that sprite is the player itself. *)
Lemma camera_step_Some (player sprite : objid) (w : World) (s p : Sprite) :
  w !! sprite = Some s ->
  w !! player = Some p ->
  camera_step player sprite w =
  Some (<[sprite := moved_against (compass (tile p)) (speed p) s]> w).
Proof.
  intros Hs Hp. unfold camera_step.
  rewrite Hs; cbn [mbind option_bind]. rewrite Hp; cbn [mbind option_bind].
  rewrite lookup_insert_eq; cbn [mbind option_bind].
  destruct (decide (sprite = player)) as [->|Hne].
  - rewrite lookup_insert_eq; cbn [mbind option_bind].
    rewrite lookup_insert_eq; cbn [mbind option_bind].
    assert (p = s) as -> by congruence.
    rewrite !insert_insert_eq. reflexivity.
  - rewrite lookup_insert_ne by exact Hne. rewrite Hp; cbn [mbind option_bind].
    rewrite lookup_insert_eq; cbn [mbind option_bind].
    rewrite !insert_insert_eq. reflexivity.
Qed.

(** The whole loop over a duplicate-free list of sprites that are all in the
    world: it ends; sprites outside the list are untouched; every listed
    sprite other than the player is [moved_against] the player's heading;
    and the player's heading and speed are what they were. *)
Lemma camera_loop_spec (player : objid) (H : Vector2) (S : Z) (order : list objid) :
  forall (w : World) (p : Sprite),
  NoDup order ->
  Forall (fun j => is_Some (w !! j)) order ->
  w !! player = Some p -> compass (tile p) = H -> speed p = S ->
  exists w' p',
    camera_loop player order w = Some w' /\
    (forall j, j ∉ order -> w' !! j = w !! j) /\
    (forall j s, j ∈ order -> j <> player -> w !! j = Some s ->
       w' !! j = Some (moved_against H S s)) /\
    w' !! player = Some p' /\ compass (tile p') = H /\ speed p' = S.
Proof.
  induction order as [|i rest IH]; intros w p Hnd Hall Hp HH HS.
  - exists w, p. cbn [camera_loop]. repeat split; try assumption.
    intros j s Hj. apply elem_of_nil in Hj. contradiction.
  - apply NoDup_cons in Hnd as [Hi Hnd].
    apply Forall_cons in Hall as [[si Hsi] Hall].
    cbn [camera_loop]. rewrite (camera_step_Some player i w si p Hsi Hp).
    cbn [mbind option_bind]. rewrite HH, HS.
    set (w1 := <[i := moved_against H S si]> w).
    assert (Hall1 : Forall (fun j => is_Some (w1 !! j)) rest).
    { eapply Forall_impl; [exact Hall |]. intros j Hj. subst w1.
      apply lookup_insert_is_Some'. right. exact Hj. }
    assert (Hp1 : exists p1, w1 !! player = Some p1 /\
                             compass (tile p1) = H /\ speed p1 = S).
    { subst w1. destruct (decide (i = player)) as [->|Hne].
      - exists (moved_against H S si). rewrite lookup_insert_eq.
        assert (si = p) as -> by congruence.
        split; [reflexivity |]. split; [exact HH | exact HS].
      - exists p. rewrite lookup_insert_ne by exact Hne. auto. }
    destruct Hp1 as (p1 & Hp1 & HH1 & HS1).
    destruct (IH w1 p1 Hnd Hall1 Hp1 HH1 HS1)
      as (w' & p' & Hloop & Hout & Hin & Hp' & HH' & HS').
    exists w', p'. split; [exact Hloop |]. split; [| split].
    + intros j Hj. apply not_elem_of_cons in Hj as [Hji Hj].
      rewrite (Hout j Hj). subst w1. apply lookup_insert_ne. congruence.
    + intros j s Hj Hjp Hs. apply elem_of_cons in Hj as [->|Hj].
      * rewrite (Hout i Hi). subst w1. rewrite lookup_insert_eq.
        congruence.
      * apply (Hin j s Hj Hjp). subst w1.
        rewrite lookup_insert_ne; [exact Hs |]. intros ->. contradiction.
    + auto.
Qed.

(* ===================================================================== *)
(** ** camera_update: the order of the loop *)
(* ===================================================================== *)

Lemma insert_keyed_perm (x : Z * objid) (l : list (Z * objid)) :
  insert_keyed x l ≡ₚ x :: l.
Proof.
  induction l as [|y l IH]; cbn [insert_keyed]; [reflexivity |].
  destruct (fst x <=? fst y); [reflexivity |].
  rewrite IH. apply Permutation_swap.
Qed.

Lemma sorted_keyed_perm (l : list (Z * objid)) : sorted_keyed l ≡ₚ l.
Proof.
  induction l as [|x l IH]; cbn [sorted_keyed]; [reflexivity |].
  rewrite insert_keyed_perm, IH. reflexivity.
Qed.

Lemma insert_keyed_sorted (x : Z * objid) (l : list (Z * objid)) :
  StronglySorted key_le l -> StronglySorted key_le (insert_keyed x l).
Proof.
  induction l as [|y l IH]; intros Hl; cbn [insert_keyed].
  - repeat constructor.
  - apply StronglySorted_inv in Hl as [Hl Hy].
    destruct (fst x <=? fst y) eqn:E.
    + apply Z.leb_le in E. constructor.
      * constructor; assumption.
      * constructor; [exact E |].
        eapply Forall_impl; [exact Hy |]. unfold key_le. intros z Hz. cbn beta in *. lia.
    + apply Z.leb_gt in E. constructor; [apply IH; exact Hl |].
      rewrite insert_keyed_perm. constructor; [unfold key_le; lia | exact Hy].
Qed.

Lemma sorted_keyed_sorted (l : list (Z * objid)) :
  StronglySorted key_le (sorted_keyed l).
Proof.
  induction l as [|x l IH]; cbn [sorted_keyed]; [constructor |].
  apply insert_keyed_sorted; exact IH.
Qed.

(** Python's sort is stable; so is [sorted_keyed]: items of equal key keep
    the order in which the group lists them. *)
Example sorted_keyed_stable :
  sorted_keyed [(5, 0%nat); (2, 1%nat); (5, 2%nat); (2, 3%nat)] =
  [(2, 1%nat); (2, 3%nat); (5, 0%nat); (5, 2%nat)].
Proof. reflexivity. Qed.

(** The pairs [camera_update] sorts: every sprite of the group, in order,
    next to the vertical center it has in the world at that moment. *)
Lemma mapM_sprite_key (w : World) (ids : list objid) (keyed : list (Z * objid)) :
  mapM (sprite_key w) ids = Some keyed ->
  snd <$> keyed = ids /\
  Forall (fun kv => fst kv = centery_of w (snd kv)) keyed.
Proof.
  intros Hm. apply mapM_Some_1 in Hm.
  induction Hm as [|i kv ids keyed Hk _ [IH1 IH2]]; [split; constructor |].
  unfold sprite_key in Hk.
  destruct (w !! i) as [s|] eqn:E; [| discriminate].
  cbn [mbind option_bind] in Hk. injection Hk as <-.
  split.
  - cbn [fmap list_fmap snd]. f_equal. exact IH1.
  - constructor; [| exact IH2].
    unfold centery_of. cbn [fst snd]. rewrite E. reflexivity.
Qed.

Lemma sorted_ids_by_centery (w : World) (l : list (Z * objid)) :
  Forall (fun kv => fst kv = centery_of w (snd kv)) l ->
  StronglySorted key_le l ->
  StronglySorted (centery_le w) (snd <$> l).
Proof.
  intros Hk Hs. induction Hs as [|kv l Hs IH Hall]; [constructor |].
  apply Forall_cons in Hk as [Hkv Hk].
  cbn [fmap list_fmap]. constructor; [apply IH; exact Hk |].
  apply Forall_fmap. rewrite Forall_forall in Hall, Hk |- *.
  intros z Hz. unfold centery_le, compose.
  rewrite <- Hkv, <- (Hk z Hz). exact (Hall z Hz).
Qed.

(** The order of the loop: defined whenever the sprites of the group are in
    the world, a rearrangement of the group, ascending in the vertical center. *)
Lemma camera_order_spec (w : World) (ids : list objid) :
  Forall (fun j => is_Some (w !! j)) ids ->
  exists order,
    camera_order w ids = Some order /\
    order ≡ₚ ids /\
    StronglySorted (centery_le w) order.
Proof.
  intros Hall.
  assert (Hm : is_Some (mapM (sprite_key w) ids)).
  { apply mapM_is_Some_2. eapply Forall_impl; [exact Hall |].
    intros j [s Hs]. unfold compose, sprite_key. rewrite Hs. eexists; reflexivity. }
  destruct Hm as [keyed Hm].
  destruct (mapM_sprite_key w ids keyed Hm) as [Hids Hkeys].
  exists (snd <$> sorted_keyed keyed).
  split; [unfold camera_order; rewrite Hm; reflexivity |]. split.
  - rewrite sorted_keyed_perm, Hids. reflexivity.
  - apply sorted_ids_by_centery; [| apply sorted_keyed_sorted].
    rewrite sorted_keyed_perm. exact Hkeys.
Qed.




(** The recorded loop is [camera_loop] with a record added: dropping the
    record gives [camera_loop], whether the loop returns or not. *)
Lemma camera_loop_log_erase (player : objid) (order : list objid) :
  forall (w : World) (log : list objid),
  fst <$> camera_loop_log player order (w, log) = camera_loop player order w.
Proof.
  induction order as [|i rest IH]; intros w log;
    cbn [camera_loop_log camera_loop fst snd]; [reflexivity |].
  destruct (camera_step player i w) as [w1|]; cbn [mbind option_bind];
    [apply IH | reflexivity].
Qed.

Lemma camera_update_log_erase (self : CameraManager) (w : World) :
  fst <$> camera_update_log self w = camera_update self w.
Proof.
  unfold camera_update_log, camera_update.
  destruct (camera_order w (sprites self)) as [order|]; cbn [mbind option_bind];
    [apply camera_loop_log_erase | reflexivity].
Qed.

Lemma world3_holds_camera3 :
  Forall (fun j => is_Some (world3 !! j)) (sprites camera3).
Proof. repeat constructor; apply is_Some_alt; vm_compute; exact I. Defined.



(** The group lists 7, 3, 5; their vertical centers are 136, 72 and 8. *)
Example camera_order_world3 :
  camera_order world3 (sprites camera3) = Some [5%nat; 3%nat; 7%nat].
Proof. vm_compute. reflexivity. Qed.

(* ===================================================================== *)
(** ** camera_update: what it does to a sprite *)
(* ===================================================================== *)

(** C4.  Let the player have heading [H] and speed [S].  For every sprite of
    the group other than the player, one [camera_update] call (which ends)
    leaves the sprite exactly where its own [move S] under the heading [-H]
    would have left it, render rectangle, hitbox and tracker included, and
    the sprite's heading is what it was before the call. *)
Theorem camera_update_moves_against_player
  (self : CameraManager) (w : World) (i : objid) (s p : Sprite) :
  NoDup (sprites self) ->
  Forall (fun j => is_Some (w !! j)) (sprites self) ->
  w !! playerCharacter self = Some p ->
  i ∈ sprites self ->
  i <> playerCharacter self ->
  w !! i = Some s ->
  let H := compass (tile p) in
  let S := speed p in
  let moved := move S (with_compass (Vector2_scale H (-1)) (tile s)) in
  exists w' s',
    camera_update self w = Some w' /\
    w' !! i = Some s' /\
    rect (tile s') = rect moved /\
    hitbox (tile s') = hitbox moved /\
    movementTracker (tile s') = movementTracker moved /\
    compass (tile s') = compass (tile s) /\
    s' = moved_against H S s.
Proof.
  intros Hnd Hall Hp Hi Hip Hs H S moved.
  destruct (camera_order_spec w (sprites self) Hall) as (order & Ho & Hperm & _).
  assert (Hnd' : NoDup order) by (rewrite Hperm; exact Hnd).
  assert (Hall' : Forall (fun j => is_Some (w !! j)) order)
    by (rewrite Hperm; exact Hall).
  assert (Hi' : i ∈ order) by (rewrite Hperm; exact Hi).
  destruct (camera_loop_spec (playerCharacter self) H S order w p
              Hnd' Hall' Hp eq_refl eq_refl)
    as (w' & p' & Hloop & _ & Hin & _).
  exists w', (moved_against H S s).
  split; [unfold camera_update; rewrite Ho; exact Hloop |].
  split; [exact (Hin i s Hi' Hip Hs) |].
  repeat split.
Qed.

(** The player comes out of [camera_update] with its heading and its speed
    unchanged, whether or not the camera holds it. *)
Lemma camera_update_keeps_player_heading
  (self : CameraManager) (w : World) (p : Sprite) :
  NoDup (sprites self) ->
  Forall (fun j => is_Some (w !! j)) (sprites self) ->
  w !! playerCharacter self = Some p ->
  exists w' p',
    camera_update self w = Some w' /\
    w' !! playerCharacter self = Some p' /\
    compass (tile p') = compass (tile p) /\ speed p' = speed p.
Proof.
  intros Hnd Hall Hp.
  destruct (camera_order_spec w (sprites self) Hall) as (order & Ho & Hperm & _).
  assert (Hnd' : NoDup order) by (rewrite Hperm; exact Hnd).
  assert (Hall' : Forall (fun j => is_Some (w !! j)) order)
    by (rewrite Hperm; exact Hall).
  destruct (camera_loop_spec (playerCharacter self) _ _ order w p
              Hnd' Hall' Hp eq_refl eq_refl)
    as (w' & p' & Hloop & _ & _ & Hp' & HH & HS).
  exists w', p'. split; [unfold camera_update; rewrite Ho; exact Hloop | auto].
Qed.

Lemma camera3_NoDup : NoDup (sprites camera3).
Proof. apply (bool_decide_unpack _). vm_compute. exact I. Defined.

Lemma camera_update_moves_against_player_witness :
  let s := mkSprite (new_tile [] (0, 64) (mkSurface 16 16)) 0 in
  let p := mkSprite (mkTile (mkSurface 16 20) (mkRect 200 150 16 20)
                       (OwnRect (mkRect 200 155 16 10))
                       (mkVector2 1 0) (mkTracker 0 0) []) 2 in
  NoDup (sprites camera3) /\
  Forall (fun j => is_Some (world3 !! j)) (sprites camera3) /\
  world3 !! playerCharacter camera3 = Some p /\
  3%nat ∈ sprites camera3 /\
  3%nat <> playerCharacter camera3 /\
  world3 !! 3%nat = Some s /\
  exists w' s',
    camera_update camera3 world3 = Some w' /\
    w' !! 3%nat = Some s' /\
    rect (tile s') = mkRect (-2) 64 16 16 /\
    compass (tile s') = Vector2_zero.
Proof.
  intros s p.
  assert (Hp : world3 !! playerCharacter camera3 = Some p) by (vm_compute; reflexivity).
  assert (Hi : 3%nat ∈ sprites camera3) by (apply (bool_decide_unpack _); vm_compute; exact I).
  assert (Hip : 3%nat <> playerCharacter camera3) by discriminate.
  assert (Hs : world3 !! 3%nat = Some s) by (vm_compute; reflexivity).
  split; [exact camera3_NoDup |]. split; [exact world3_holds_camera3 |].
  split; [exact Hp |]. split; [exact Hi |]. split; [exact Hip |]. split; [exact Hs |].
  destruct (camera_update_moves_against_player camera3 world3 3%nat s p
              camera3_NoDup world3_holds_camera3 Hp Hi Hip Hs)
    as (w' & s' & Hu & Hl & Hr & _ & _ & Hc & _).
  exists w', s'. split; [exact Hu |]. split; [exact Hl |].
  split; [rewrite Hr; reflexivity | rewrite Hc; reflexivity].
Defined.

(* ===================================================================== *)
(** ** The damsel's collision hook *)
(* ===================================================================== *)

(** C10.  [Damsel.collision_handler] is a no-op for every argument, of any
    type: the call returns, raises nothing, and the damsel is exactly what
    it was (rectangles, heading, tracker, animation state, groups, obstacle
    list and all), so no overlap with an obstacle is ever resolved by it. *)
Theorem collision_handler_is_noop (A : Type) (direction : A) (self : Damsel) :
  collision_handler direction self = Returned (tt, self).
Proof. reflexivity. Qed.

(** A freshly built damsel, with obstacles to avoid, is the same damsel after
    the hook. *)
Example collision_handler_on_fresh_damsel :
  let d := Damsel_init (40, 60) ["visible"%string] [3%nat; 5%nat] 1
             (mkAnimation "down" 0 0) in
  collision_handler "horizontal"%string d = Returned (tt, d) /\
  rect (damsel_tile d) = mkRect 40 60 16 20 /\
  hitbox_rect (damsel_tile d) = mkRect 40 65 16 10.
Proof. repeat split. Qed.

(* ===================================================================== *)
(** ** How the shift primitives compose *)
(* ===================================================================== *)

(** Closes goals on rectangles and tiles built from sums of coordinates. *)
Ltac rect_arith :=
  repeat match goal with
         | |- context [Z.shiftr ?a 1] =>
             let k := fresh "k" in generalize (Z.shiftr a 1); intros k
         end;
  repeat (f_equal; try lia).

Lemma _move_dir_eq (d : Dir) (speed : Z) (self : Tile) :
  _move_dir d speed self =
  sync_hitbox (rect_move (shift_dx d speed) (shift_dy d speed) self).
Proof.
  destruct d; cbn [_move_dir shift_dx shift_dy];
    unfold _move_up, _move_down, _move_left, _move_right;
    try reflexivity; replace (-1 * speed) with (- speed) by lia; reflexivity.
Qed.

Lemma shift_twice (a b c d : Z) (self : Tile) :
  sync_hitbox (rect_move a b (sync_hitbox (rect_move c d self))) =
  sync_hitbox (rect_move (a + c) (b + d) self).
Proof.
  destruct self as [img [x y w h] hb cp m g].
  destruct hb as [|[hx hy hw hh]];
    unfold sync_hitbox, rect_move, with_rect, with_hitbox,
      rect_center, rect_centerx, rect_centery, rect_set_center, rect_move_ip;
    cbn [image rect hitbox compass movementTracker groups fst snd
         rect_left rect_top rect_width rect_height];
    rect_arith.
Qed.

Lemma rect_move_0 (self : Tile) : rect_move 0 0 self = self.
Proof.
  destruct self as [img [x y w h] hb cp m g].
  unfold rect_move, with_rect, rect_move_ip;
    cbn [image rect hitbox compass movementTracker groups
         rect_left rect_top rect_width rect_height].
  rect_arith.
Qed.

Lemma sync_hitbox_centered_id (self : Tile) :
  hitbox_centered self -> sync_hitbox self = self.
Proof.
  unfold hitbox_centered, hitbox_rect, sync_hitbox. intros Hc.
  destruct self as [img r hb cp m g]; cbn [hitbox rect] in *.
  destruct hb as [|hr].
  - rewrite rect_set_center_same. reflexivity.
  - rewrite <- Hc, rect_set_center_same. reflexivity.
Qed.

Lemma shift_sum_same (d : Dir) (a b : Z) :
  shift_dx d a + shift_dx d b = shift_dx d (a + b) /\
  shift_dy d a + shift_dy d b = shift_dy d (a + b).
Proof. destruct d; cbn [shift_dx shift_dy]; lia. Qed.

Lemma shift_sum_opposite (d : Dir) (s : Z) :
  shift_dx (opposite d) s + shift_dx d s = 0 /\
  shift_dy (opposite d) s + shift_dy d s = 0.
Proof. destruct d; cbn [shift_dx shift_dy opposite]; lia. Qed.

(** X1.  Two shifts in the same direction are one shift by the sum of the
    speeds: [_move_X a] after [_move_X b] is [_move_X (a + b)], for the
    render rectangle and the hitbox alike. *)
Theorem primitive_shifts_add_up (d : Dir) (a b : Z) (self : Tile) :
  _move_dir d a (_move_dir d b self) = _move_dir d (a + b) self.
Proof.
  rewrite !_move_dir_eq, shift_twice.
  destruct (shift_sum_same d a b) as [-> ->]. reflexivity.
Qed.

(** X2.  Shifts commute: any two primitives, along the same axis or not,
    give the same tile in either order. *)
Theorem primitive_shifts_commute (d e : Dir) (a b : Z) (self : Tile) :
  _move_dir d a (_move_dir e b self) = _move_dir e b (_move_dir d a self).
Proof.
  rewrite !_move_dir_eq, !shift_twice.
  f_equal. f_equal; lia.
Qed.

(** X3.  A shift followed by the shift of the same speed in the opposite
    direction puts a tile whose hitbox is centered back exactly as it was. *)
Theorem opposite_shift_undoes (d : Dir) (speed : Z) (self : Tile) :
  hitbox_centered self ->
  _move_dir (opposite d) speed (_move_dir d speed self) = self.
Proof.
  intros Hc. rewrite !_move_dir_eq, shift_twice.
  destruct (shift_sum_opposite d speed) as [-> ->].
  rewrite rect_move_0. apply sync_hitbox_centered_id; exact Hc.
Qed.

Lemma opposite_shift_undoes_witness :
  hitbox_centered damsel_tile_40_60 /\
  _move_dir (opposite Left) 3 (_move_dir Left 3 damsel_tile_40_60) = damsel_tile_40_60.
Proof.
  assert (Hc : hitbox_centered damsel_tile_40_60) by reflexivity.
  split; [exact Hc |].
  exact (opposite_shift_undoes Left 3 damsel_tile_40_60 Hc).
Defined.

(** X4.  A negative speed reverses a primitive: [_move_X (- speed)] is the
    primitive of the opposite direction at [speed]. *)
Theorem negative_speed_reverses (d : Dir) (speed : Z) (self : Tile) :
  _move_dir d (- speed) self = _move_dir (opposite d) speed self.
Proof.
  rewrite !_move_dir_eq.
  destruct d; cbn [shift_dx shift_dy opposite]; rewrite ?Z.opp_involutive;
    reflexivity.
Qed.

(* ===================================================================== *)
(** ** What every movement call keeps *)
(* ===================================================================== *)

Section CallInvariant.

Variable P : Tile -> Prop.
Hypothesis P_tracker : forall m t, P t -> P (with_tracker m t).
Hypothesis P_compass : forall c t, P t -> P (with_compass c t).
Hypothesis P_shift : forall d s t, P t -> P (_move_dir d s t).

Lemma invariant_move (speed : Z) (self : Tile) : P self -> P (move speed self).
Proof.
  intros HP. unfold move. rewrite update_movement_tracker_eq.
  set (t0 := with_tracker _ self).
  assert (H0 : P t0) by (apply P_tracker; exact HP).
  assert (H1 : P (move_vertical speed t0)).
  { unfold move_vertical, add_vertical.
    destruct (_ <=? _); [apply P_tracker, (P_shift Up); exact H0 |].
    destruct (_ >=? _); [apply P_tracker, (P_shift Down); exact H0 | exact H0]. }
  unfold move_horizontal, add_horizontal.
  destruct (_ <=? _); [apply P_tracker, (P_shift Left); exact H1 |].
  destruct (_ >=? _); [apply P_tracker, (P_shift Right); exact H1 | exact H1].
Qed.

Lemma invariant_move_dir (d : Dir) (speed : Z) (self : Tile) :
  P self -> P (move_dir d speed self).
Proof.
  intros HP. rewrite move_dir_unfold. apply P_shift, P_compass. exact HP.
Qed.

Lemma invariant_run_call (c : TileCall) (self : Tile) :
  P self -> P (run_call c self).
Proof.
  intros HP. destruct c as [s|s|s|s|s|s|s|s|s]; cbn [run_call].
  - apply invariant_move; exact HP.
  - exact (invariant_move_dir Left s self HP).
  - exact (invariant_move_dir Right s self HP).
  - exact (invariant_move_dir Up s self HP).
  - exact (invariant_move_dir Down s self HP).
  - exact (P_shift Left s self HP).
  - exact (P_shift Right s self HP).
  - exact (P_shift Up s self HP).
  - exact (P_shift Down s self HP).
Qed.

Lemma invariant_run_calls (cs : list TileCall) (self : Tile) :
  P self -> P (run_calls cs self).
Proof.
  revert self. induction cs as [|c cs IH]; intros self HP; [exact HP |].
  cbn [run_calls fold_left]. apply IH, invariant_run_call. exact HP.
Qed.

End CallInvariant.

Lemma shape_sync_hitbox (self : Tile) : tile_shape (sync_hitbox self) = tile_shape self.
Proof. destruct self as [img r hb cp m g]; destruct hb; reflexivity. Qed.

Lemma shape_rect_move (a b : Z) (self : Tile) :
  tile_shape (rect_move a b self) = tile_shape self.
Proof. destruct self as [img r hb cp m g]; destruct hb; reflexivity. Qed.

Lemma shape__move_dir (d : Dir) (speed : Z) (self : Tile) :
  tile_shape (_move_dir d speed self) = tile_shape self.
Proof. rewrite _move_dir_eq, shape_sync_hitbox, shape_rect_move. reflexivity. Qed.

(** X5.  No sequence of [move], directional and primitive calls changes the
    image, the groups, the size of the render rectangle or the size of the
    hitbox: movement only translates. *)
Theorem calls_keep_shape (cs : list TileCall) (self : Tile) :
  tile_shape (run_calls cs self) = tile_shape self.
Proof.
  apply (invariant_run_calls (fun t => tile_shape t = tile_shape self)).
  - intros m t Ht. rewrite <- Ht. reflexivity.
  - intros c t Ht. rewrite <- Ht. reflexivity.
  - intros d s t Ht. rewrite shape__move_dir. exact Ht.
  - reflexivity.
Qed.

Lemma centered__move_dir (d : Dir) (speed : Z) (self : Tile) :
  hitbox_centered (_move_dir d speed self).
Proof. rewrite _move_dir_eq. apply sync_hitbox_centered. Qed.

(** X6.  A hitbox that sits on the center of the render rectangle still does
    after any sequence of [move], directional and primitive calls, also
    after the [move] calls that shift nothing. *)
Theorem calls_keep_hitbox_centered (cs : list TileCall) (self : Tile) :
  hitbox_centered self -> hitbox_centered (run_calls cs self).
Proof.
  apply (invariant_run_calls hitbox_centered).
  - intros m t Ht. exact Ht.
  - intros c t Ht. exact Ht.
  - intros d s t _. apply centered__move_dir.
Qed.

Lemma calls_keep_hitbox_centered_witness :
  hitbox_centered damsel_tile_40_60 /\
  hitbox_centered
    (run_calls [Call_move 2; Call_move_left 1; Call__move_up 5] damsel_tile_40_60).
Proof.
  assert (Hc : hitbox_centered damsel_tile_40_60) by reflexivity.
  split; [exact Hc |].
  exact (calls_keep_hitbox_centered _ damsel_tile_40_60 Hc).
Defined.

(** X7.  Every directional call, [move_left] included, shifts the render
    rectangle by [speed] pixels in its direction at once, whatever the
    tracker holds, and leaves the tracker as it was. *)
Theorem directional_call_shifts_at_once (d : Dir) (speed : Z) (self : Tile) :
  rect (move_dir d speed self) =
    rect_move_ip (shift_dx d speed) (shift_dy d speed) (rect self) /\
  movementTracker (move_dir d speed self) = movementTracker self.
Proof.
  split; [| apply tracker_move_dir].
  rewrite move_dir_unfold, _move_dir_eq, rect_sync_hitbox. reflexivity.
Qed.

(* ===================================================================== *)
(** ** move: the tracker and the distance covered *)
(* ===================================================================== *)

Lemma rect_ext (r r' : Rect) :
  rect_left r = rect_left r' -> rect_top r = rect_top r' ->
  rect_size r = rect_size r' -> r = r'.
Proof.
  destruct r, r'; unfold rect_size; cbn [rect_left rect_top rect_width rect_height].
  intros -> -> [= -> ->]. reflexivity.
Qed.

(** One [move] on the whole-number trackers of this embedding, with [ah] and
    [av] the tracker advanced by the heading. *)
Lemma move_closed_form (speed : Z) (self : Tile) :
  let ah := horizontal (movementTracker self) + vec_x (compass self) in
  let av := vertical (movementTracker self) + vec_y (compass self) in
  rect (move speed self) =
    rect_move_ip (speed * Z.sgn ah) (speed * Z.sgn av) (rect self) /\
  movementTracker (move speed self) = mkTracker (av - Z.sgn av) (ah - Z.sgn ah).
Proof.
  intros ah av. split.
  - destruct (move_displacement speed self) as (Hx & Hy & Hs).
    unfold crosses_left, crosses_right, crosses_up, crosses_down,
      Direction.up, Direction.down, Direction.left, Direction.right in Hx, Hy.
    fold ah in Hx. fold av in Hy.
    apply rect_ext; [| | exact Hs]; unfold rect_move_ip;
      cbn [rect_left rect_top].
    + destruct (Z.leb_spec ah (-1)); [| destruct (Z.geb_spec ah 1)]; nia.
    + destruct (Z.leb_spec av (-1)); [| destruct (Z.geb_spec av 1)]; nia.
  - unfold move.
    rewrite tracker_move_horizontal, tracker_move_vertical, update_movement_tracker_eq.
    rewrite tracker_with_tracker. cbn [vertical horizontal].
    fold ah av.
    unfold Direction.up, Direction.down, Direction.left, Direction.right.
    f_equal.
    + destruct (Z.leb_spec av (-1)); [| destruct (Z.geb_spec av 1)]; lia.
    + destruct (Z.leb_spec ah (-1)); [| destruct (Z.geb_spec ah 1)]; lia.
Qed.

(** X8.  One [move] relaxes the tracker.  On each axis, with [a] the tracker
    advanced by the heading, the tracker ends at [a + 1] when [a] has reached
    the up or left threshold, at [a - 1] when it has reached the down or
    right threshold, and at [a] otherwise; so the tracker never grows in
    magnitude and never changes sign in the relaxation. *)
Theorem move_relaxes_tracker_toward_zero (speed : Z) (self : Tile) :
  let ah := horizontal (movementTracker self) + vec_x (compass self) in
  let av := vertical (movementTracker self) + vec_y (compass self) in
  let h' := horizontal (movementTracker (move speed self)) in
  let v' := vertical (movementTracker (move speed self)) in
  h' = (if crosses_left self then ah + Direction.right
        else if crosses_right self then ah + Direction.left else ah) /\
  v' = (if crosses_up self then av + Direction.down
        else if crosses_down self then av + Direction.up else av) /\
  Z.abs h' <= Z.abs ah /\
  Z.abs v' <= Z.abs av /\
  0 <= h' * ah /\
  0 <= v' * av.
Proof.
  intros ah av h' v'. subst h' v'. unfold move.
  rewrite tracker_move_horizontal, tracker_move_vertical, update_movement_tracker_eq.
  rewrite tracker_with_tracker. cbn [vertical horizontal]. fold ah av.
  unfold crosses_left, crosses_right, crosses_up, crosses_down. fold ah av.
  unfold Direction.up, Direction.down, Direction.left, Direction.right.
  split; [reflexivity |]. split; [reflexivity |].
  destruct (Z.leb_spec ah (-1)); [| destruct (Z.geb_spec ah 1)];
    (destruct (Z.leb_spec av (-1)); [| destruct (Z.geb_spec av 1)]);
    repeat split; nia.
Qed.

(** With a zero heading and the tracker at rest, one [move] changes nothing. *)
Lemma move_idle (speed : Z) (self : Tile) :
  compass self = Vector2_zero ->
  at_rest self ->
  move speed self = self.
Proof.
  unfold at_rest. intros Hc Hm. unfold move.
  rewrite update_movement_tracker_eq, Hc, Hm.
  cbn [vec_x vec_y Vector2_zero vertical horizontal].
  change (0 + 0) with 0.
  rewrite move_vertical_idle
    by (rewrite tracker_with_tracker; unfold Direction.up, Direction.down;
        cbn [vertical]; lia).
  rewrite move_horizontal_idle
    by (rewrite tracker_with_tracker; unfold Direction.left, Direction.right;
        cbn [horizontal]; lia).
  symmetry. apply with_tracker_same_as. exact Hm.
Qed.

(** X9.  With a zero heading and the tracker at rest, any number of [move]
    calls at any speed leaves the tile exactly as it is: a tile that is not
    heading anywhere stays put. *)
Theorem moves_without_heading_are_identity (n : nat) (speed : Z) (self : Tile) :
  compass self = Vector2_zero ->
  at_rest self ->
  moves n speed self = self.
Proof.
  intros Hc Hm. induction n as [|n IH]; [reflexivity |].
  change (moves (S n) speed self) with (move speed (moves n speed self)).
  rewrite IH. apply move_idle; assumption.
Qed.

Lemma moves_without_heading_are_identity_witness :
  let t := new_tile [] (100, 100) (mkSurface 16 16) in
  compass t = Vector2_zero /\ at_rest t /\ moves 3 4 t = t.
Proof.
  intros t.
  assert (Hc : compass t = Vector2_zero) by reflexivity.
  assert (Hm : at_rest t) by reflexivity.
  split; [exact Hc |]. split; [exact Hm |].
  exact (moves_without_heading_are_identity 3 4 t Hc Hm).
Defined.

Lemma moves_S (n : nat) (speed : Z) (self : Tile) :
  moves (S n) speed self = move speed (moves n speed self).
Proof. reflexivity. Qed.

(** X10.  Constant velocity.  From a tracker at rest and with a heading of
    components among -1, 0 and 1, [n] calls of [move speed] carry the render
    rectangle [n * speed] pixels along each axis the heading points to, both
    axes at once for a diagonal heading, and leave the tracker at rest. *)
Theorem moves_cover_n_times_speed (n : nat) (speed : Z) (self : Tile) :
  unit_heading (compass self) ->
  at_rest self ->
  rect (moves n speed self) =
    rect_move_ip (Z.of_nat n * (speed * vec_x (compass self)))
                 (Z.of_nat n * (speed * vec_y (compass self))) (rect self) /\
  at_rest (moves n speed self).
Proof.
  intros [Hx Hy] Hm. induction n as [|n [IHr IHm]].
  - split; [| exact Hm]. cbn [moves Nat.iter nat_rect].
    apply rect_ext; unfold rect_move_ip; cbn [rect_left rect_top]; try reflexivity; lia.
  - rewrite moves_S.
    assert (Hc : compass (moves n speed self) = compass self)
      by apply compass_iter_move.
    destruct (move_closed_form speed (moves n speed self)) as [Hr Ht].
    cbn zeta in Hr, Ht. unfold at_rest in IHm. rewrite IHm, Hc in Hr, Ht.
    cbn [vertical horizontal] in Hr, Ht.
    split.
    + rewrite Hr, IHr.
      apply rect_ext; unfold rect_move_ip, rect_size;
        cbn [rect_left rect_top rect_width rect_height]; try reflexivity.
      * assert (Z.sgn (0 + vec_x (compass self)) = vec_x (compass self)) as -> by lia.
        lia.
      * assert (Z.sgn (0 + vec_y (compass self)) = vec_y (compass self)) as -> by lia.
        lia.
    + unfold at_rest. rewrite Ht. f_equal; lia.
Qed.

Lemma moves_cover_n_times_speed_witness :
  unit_heading (compass tile_heading_right) /\
  at_rest tile_heading_right /\
  rect (moves 5 4 tile_heading_right) = mkRect 120 100 16 16 /\
  at_rest (moves 5 4 tile_heading_right).
Proof.
  assert (Hu : unit_heading (compass tile_heading_right))
    by (unfold unit_heading; cbn; lia).
  assert (Hm : at_rest tile_heading_right) by reflexivity.
  split; [exact Hu |]. split; [exact Hm |].
  destruct (moves_cover_n_times_speed 5 4 tile_heading_right Hu Hm) as [Hr Hrest].
  split; [rewrite Hr; reflexivity | exact Hrest].
Defined.

Lemma compass_move_dir (d : Dir) (speed : Z) (self : Tile) :
  compass (move_dir d speed self) =
  match d with Left => unit_vector Right | _ => unit_vector d end.
Proof. rewrite move_dir_unfold, compass__move_dir. reflexivity. Qed.

(** X11.  After a directional call on a tile with the tracker at rest, one
    [move] at the same speed follows the heading the call left: after
    [move_right] the tile is two steps to the right of where it started,
    but after [move_left], which leaves the heading pointing right, the
    [move] takes the tile back to where it started. *)
Theorem move_after_directional_call (speed : Z) (self : Tile) :
  at_rest self ->
  rect (move speed (move_right speed self)) = rect_move_ip (2 * speed) 0 (rect self) /\
  rect (move speed (move_left speed self)) = rect self.
Proof.
  unfold at_rest. intros Hm. split.
  - destruct (move_closed_form speed (move_dir Right speed self)) as [Hr _].
    cbn zeta in Hr. rewrite tracker_move_dir, Hm in Hr.
    rewrite compass_move_dir in Hr.
    cbn [compass with_compass unit_vector vec_x vec_y vertical horizontal] in Hr.
    unfold Direction.right in Hr.
    change (Z.sgn (0 + 1)) with 1 in Hr. change (Z.sgn (0 + 0)) with 0 in Hr.
    change (move_right speed self) with (move_dir Right speed self).
    rewrite Hr, move_dir_unfold, _move_dir_eq, rect_sync_hitbox.
    apply rect_ext; unfold rect_move, with_rect, with_compass, rect_move_ip, rect_size;
      cbn [rect shift_dx shift_dy rect_left rect_top rect_width rect_height];
      try reflexivity; lia.
  - destruct (move_closed_form speed (move_dir Left speed self)) as [Hr _].
    cbn zeta in Hr. rewrite tracker_move_dir, Hm in Hr.
    rewrite compass_move_dir in Hr.
    cbn [compass with_compass unit_vector vec_x vec_y vertical horizontal] in Hr.
    unfold Direction.right in Hr.
    change (Z.sgn (0 + 1)) with 1 in Hr. change (Z.sgn (0 + 0)) with 0 in Hr.
    change (move_left speed self) with (move_dir Left speed self).
    rewrite Hr, move_dir_unfold, _move_dir_eq, rect_sync_hitbox.
    apply rect_ext; unfold rect_move, with_rect, with_compass, rect_move_ip, rect_size;
      cbn [rect shift_dx shift_dy rect_left rect_top rect_width rect_height];
      try reflexivity; lia.
Qed.

Lemma move_after_directional_call_witness :
  let t := new_tile [] (100, 100) (mkSurface 16 16) in
  at_rest t /\
  rect (move 4 (move_right 4 t)) = mkRect 108 100 16 16 /\
  rect (move 4 (move_left 4 t)) = mkRect 100 100 16 16.
Proof.
  intros t.
  assert (Hm : at_rest t) by reflexivity.
  split; [exact Hm |].
  destruct (move_after_directional_call 4 t Hm) as [Hr Hl].
  split; [rewrite Hr; reflexivity | rewrite Hl; reflexivity].
Defined.

(** X12.  [set_tile] puts the render rectangle at [coords] with the size of
    the surface and keeps the heading and the tracker: the next [move] covers
    the same distance it would have covered before the call. *)
Theorem set_tile_keeps_motion
  (coords : Z * Z) (surface : Surface) (speed : Z) (self : Tile) :
  rect_topleft (rect (set_tile coords surface self)) = coords /\
  rect_size (rect (set_tile coords surface self)) =
    (surf_width surface, surf_height surface) /\
  move_dx speed (set_tile coords surface self) = move_dx speed self /\
  move_dy speed (set_tile coords surface self) = move_dy speed self /\
  movementTracker (move speed (set_tile coords surface self)) =
    movementTracker (move speed self).
Proof.
  split; [destruct coords; reflexivity |]. split; [reflexivity |].
  unfold move_dx, move_dy.
  destruct (move_closed_form speed (set_tile coords surface self)) as [Hr Ht].
  destruct (move_closed_form speed self) as [Hr' Ht'].
  cbn zeta in *. rewrite Hr, Hr', Ht, Ht'.
  unfold rect_move_ip; cbn [rect_left rect_top set_tile compass movementTracker].
  repeat split; lia.
Qed.

(* ===================================================================== *)
(** ** camera_update on the whole world *)
(* ===================================================================== *)

(** The loop, for every listed sprite, the player included. *)
Lemma camera_loop_full (player : objid) (H : Vector2) (S : Z) (order : list objid) :
  forall (w : World) (p : Sprite),
  NoDup order ->
  Forall (fun j => is_Some (w !! j)) order ->
  w !! player = Some p -> compass (tile p) = H -> speed p = S ->
  exists w',
    camera_loop player order w = Some w' /\
    (forall j, j ∉ order -> w' !! j = w !! j) /\
    (forall j s, j ∈ order -> w !! j = Some s ->
       w' !! j = Some (moved_against H S s)).
Proof.
  induction order as [|i rest IH]; intros w p Hnd Hall Hp HH HS.
  - exists w. cbn [camera_loop]. repeat split.
    intros j s Hj. apply elem_of_nil in Hj. contradiction.
  - apply NoDup_cons in Hnd as [Hi Hnd].
    apply Forall_cons in Hall as [[si Hsi] Hall].
    cbn [camera_loop]. rewrite (camera_step_Some player i w si p Hsi Hp).
    cbn [mbind option_bind]. rewrite HH, HS.
    set (w1 := <[i := moved_against H S si]> w).
    assert (Hall1 : Forall (fun j => is_Some (w1 !! j)) rest).
    { eapply Forall_impl; [exact Hall |]. intros j Hj. subst w1.
      apply lookup_insert_is_Some'. right. exact Hj. }
    assert (Hp1 : exists p1, w1 !! player = Some p1 /\
                             compass (tile p1) = H /\ speed p1 = S).
    { subst w1. destruct (decide (i = player)) as [->|Hne].
      - exists (moved_against H S si). rewrite lookup_insert_eq.
        assert (si = p) as -> by congruence.
        split; [reflexivity |]. split; [exact HH | exact HS].
      - exists p. rewrite lookup_insert_ne by exact Hne. auto. }
    destruct Hp1 as (p1 & Hp1 & HH1 & HS1).
    destruct (IH w1 p1 Hnd Hall1 Hp1 HH1 HS1) as (w' & Hloop & Hout & Hin).
    exists w'. split; [exact Hloop |]. split.
    + intros j Hj. apply not_elem_of_cons in Hj as [Hji Hj].
      rewrite (Hout j Hj). subst w1. apply lookup_insert_ne. congruence.
    + intros j s Hj Hs. apply elem_of_cons in Hj as [->|Hj].
      * rewrite (Hout i Hi). subst w1. rewrite lookup_insert_eq. congruence.
      * apply (Hin j s Hj). subst w1.
        rewrite lookup_insert_ne; [exact Hs |]. intros ->. contradiction.
Qed.

(** [camera_update] as a map over the world: the sprites of the group are
    [moved_against] the player, everything else is left alone. *)
Lemma camera_update_full (self : CameraManager) (w : World) (p : Sprite) :
  NoDup (sprites self) ->
  Forall (fun j => is_Some (w !! j)) (sprites self) ->
  w !! playerCharacter self = Some p ->
  exists w',
    camera_update self w = Some w' /\
    (forall j, j ∉ sprites self -> w' !! j = w !! j) /\
    (forall j s, j ∈ sprites self -> w !! j = Some s ->
       w' !! j = Some (moved_against (compass (tile p)) (speed p) s)).
Proof.
  intros Hnd Hall Hp.
  destruct (camera_order_spec w (sprites self) Hall) as (order & Ho & Hperm & _).
  assert (Hnd' : NoDup order) by (rewrite Hperm; exact Hnd).
  assert (Hall' : Forall (fun j => is_Some (w !! j)) order)
    by (rewrite Hperm; exact Hall).
  destruct (camera_loop_full (playerCharacter self) _ _ order w p
              Hnd' Hall' Hp eq_refl eq_refl) as (w' & Hloop & Hout & Hin).
  exists w'. split; [unfold camera_update; rewrite Ho; exact Hloop |]. split.
  - intros j Hj. apply Hout. rewrite Hperm. exact Hj.
  - intros j s Hj Hs. apply Hin; [rewrite Hperm; exact Hj | exact Hs].
Qed.

Lemma shape_move (speed : Z) (self : Tile) :
  tile_shape (move speed self) = tile_shape self.
Proof.
  apply (invariant_move (fun t => tile_shape t = tile_shape self)).
  - intros m t Ht. rewrite <- Ht. reflexivity.
  - intros d s t Ht. rewrite shape__move_dir. exact Ht.
  - reflexivity.
Qed.

Lemma shape_moved_against (H : Vector2) (S : Z) (s : Sprite) :
  tile_shape (tile (moved_against H S s)) = tile_shape (tile s).
Proof.
  unfold moved_against. cbn [tile with_tile].
  change (tile_shape (with_compass ?c ?t)) with (tile_shape t).
  rewrite shape_move. reflexivity.
Qed.

Lemma world3_player :
  world3 !! playerCharacter camera3 =
  Some (mkSprite (mkTile (mkSurface 16 20) (mkRect 200 150 16 20)
                    (OwnRect (mkRect 200 155 16 10))
                    (mkVector2 1 0) (mkTracker 0 0) []) 2).
Proof. vm_compute. reflexivity. Defined.

(** X13.  [camera_update] touches the sprites of its group only: every other
    object of the world, the player included when the camera does not hold
    it, is exactly as before, and no object appears or disappears. *)
Theorem camera_update_frame (self : CameraManager) (w : World) (p : Sprite) :
  NoDup (sprites self) ->
  Forall (fun j => is_Some (w !! j)) (sprites self) ->
  w !! playerCharacter self = Some p ->
  exists w',
    camera_update self w = Some w' /\
    (forall j, j ∉ sprites self -> w' !! j = w !! j) /\
    (forall j, is_Some (w' !! j) <-> is_Some (w !! j)).
Proof.
  intros Hnd Hall Hp.
  destruct (camera_update_full self w p Hnd Hall Hp) as (w' & Hu & Hout & Hin).
  exists w'. split; [exact Hu |]. split; [exact Hout |].
  intros j. destruct (decide (j ∈ sprites self)) as [Hj|Hj].
  - rewrite Forall_forall in Hall. destruct (Hall j Hj) as [s Hs].
    rewrite (Hin j s Hj Hs), Hs. split; intros _; eexists; reflexivity.
  - rewrite (Hout j Hj). reflexivity.
Qed.

Lemma camera_update_frame_witness :
  NoDup (sprites camera3) /\
  Forall (fun j => is_Some (world3 !! j)) (sprites camera3) /\
  exists w',
    camera_update camera3 world3 = Some w' /\
    (forall j, j ∉ sprites camera3 -> w' !! j = world3 !! j) /\
    (forall j, is_Some (w' !! j) <-> is_Some (world3 !! j)).
Proof.
  split; [exact camera3_NoDup |]. split; [exact world3_holds_camera3 |].
  exact (camera_update_frame camera3 world3 _
           camera3_NoDup world3_holds_camera3 world3_player).
Defined.

(** X14.  [camera_update] changes no heading, no speed, no image, no group
    list and no size: every object of the world comes out with the heading
    it went in with, the sprites the camera moved included. *)
Theorem camera_update_restores_headings
  (self : CameraManager) (w : World) (p : Sprite) :
  NoDup (sprites self) ->
  Forall (fun j => is_Some (w !! j)) (sprites self) ->
  w !! playerCharacter self = Some p ->
  exists w',
    camera_update self w = Some w' /\
    forall j s, w !! j = Some s ->
      exists s', w' !! j = Some s' /\
        compass (tile s') = compass (tile s) /\
        speed s' = speed s /\
        tile_shape (tile s') = tile_shape (tile s).
Proof.
  intros Hnd Hall Hp.
  destruct (camera_update_full self w p Hnd Hall Hp) as (w' & Hu & Hout & Hin).
  exists w'. split; [exact Hu |].
  intros j s Hs. destruct (decide (j ∈ sprites self)) as [Hj|Hj].
  - exists (moved_against (compass (tile p)) (speed p) s).
    split; [exact (Hin j s Hj Hs) |].
    split; [reflexivity |]. split; [reflexivity |]. apply shape_moved_against.
  - exists s. rewrite (Hout j Hj). auto.
Qed.

Lemma camera_update_restores_headings_witness :
  NoDup (sprites camera3) /\
  Forall (fun j => is_Some (world3 !! j)) (sprites camera3) /\
  exists w',
    camera_update camera3 world3 = Some w' /\
    forall j s, world3 !! j = Some s ->
      exists s', w' !! j = Some s' /\
        compass (tile s') = compass (tile s) /\
        speed s' = speed s /\
        tile_shape (tile s') = tile_shape (tile s).
Proof.
  split; [exact camera3_NoDup |]. split; [exact world3_holds_camera3 |].
  exact (camera_update_restores_headings camera3 world3 _
           camera3_NoDup world3_holds_camera3 world3_player).
Defined.

Lemma camera_with_player_NoDup : NoDup (sprites camera_with_player).
Proof. apply (bool_decide_unpack _). vm_compute. exact I. Defined.

Lemma world3_holds_camera_with_player :
  Forall (fun j => is_Some (world3 !! j)) (sprites camera_with_player).
Proof. repeat constructor; apply is_Some_alt; vm_compute; exact I. Defined.

(** X15.  A player that is itself in the camera's group is moved like every
    other sprite: against its own heading, by its own speed, with its
    heading put back.  [camera_update] makes no exception for the player. *)
Theorem camera_update_moves_player_in_group
  (self : CameraManager) (w : World) (p : Sprite) :
  NoDup (sprites self) ->
  Forall (fun j => is_Some (w !! j)) (sprites self) ->
  w !! playerCharacter self = Some p ->
  playerCharacter self ∈ sprites self ->
  exists w',
    camera_update self w = Some w' /\
    w' !! playerCharacter self =
      Some (moved_against (compass (tile p)) (speed p) p) /\
    rect (tile (moved_against (compass (tile p)) (speed p) p)) =
      rect (move (speed p) (with_compass (Vector2_scale (compass (tile p)) (-1)) (tile p))).
Proof.
  intros Hnd Hall Hp Hin.
  destruct (camera_update_full self w p Hnd Hall Hp) as (w' & Hu & _ & Hmoved).
  exists w'. split; [exact Hu |]. split; [| reflexivity].
  exact (Hmoved _ p Hin Hp).
Qed.

Lemma camera_update_moves_player_in_group_witness :
  NoDup (sprites camera_with_player) /\
  Forall (fun j => is_Some (world3 !! j)) (sprites camera_with_player) /\
  playerCharacter camera_with_player ∈ sprites camera_with_player /\
  exists w' p',
    camera_update camera_with_player world3 = Some w' /\
    w' !! 1%nat = Some p' /\
    rect (tile p') = mkRect 198 150 16 20 /\
    compass (tile p') = mkVector2 1 0.
Proof.
  assert (Hin : playerCharacter camera_with_player ∈ sprites camera_with_player)
    by (apply (bool_decide_unpack _); vm_compute; exact I).
  split; [exact camera_with_player_NoDup |].
  split; [exact world3_holds_camera_with_player |].
  split; [exact Hin |].
  destruct (camera_update_moves_player_in_group camera_with_player world3 _
              camera_with_player_NoDup world3_holds_camera_with_player
              world3_player Hin) as (w' & Hu & Hl & _).
  exists w', (moved_against (mkVector2 1 0) 2
                (mkSprite (mkTile (mkSurface 16 20) (mkRect 200 150 16 20)
                             (OwnRect (mkRect 200 155 16 10))
                             (mkVector2 1 0) (mkTracker 0 0) []) 2)).
  split; [exact Hu |]. split; [exact Hl |]. split; reflexivity.
Defined.

(** X16.  Scrolling.  When the player's heading has components among -1, 0
    and 1, a sprite of the group whose tracker is at rest is carried by
    exactly the player's speed against the player's heading on each axis,
    and its tracker is at rest again, ready for the next frame. *)
Theorem camera_update_scrolls_by_speed
  (self : CameraManager) (w : World) (i : objid) (s p : Sprite) :
  NoDup (sprites self) ->
  Forall (fun j => is_Some (w !! j)) (sprites self) ->
  w !! playerCharacter self = Some p ->
  i ∈ sprites self ->
  w !! i = Some s ->
  unit_heading (compass (tile p)) ->
  at_rest (tile s) ->
  exists w' s',
    camera_update self w = Some w' /\
    w' !! i = Some s' /\
    rect (tile s') =
      rect_move_ip (- (speed p * vec_x (compass (tile p))))
                   (- (speed p * vec_y (compass (tile p)))) (rect (tile s)) /\
    at_rest (tile s').
Proof.
  intros Hnd Hall Hp Hi Hs [Hx Hy] Hrest.
  destruct (camera_update_full self w p Hnd Hall Hp) as (w' & Hu & _ & Hmoved).
  exists w', (moved_against (compass (tile p)) (speed p) s).
  split; [exact Hu |]. split; [exact (Hmoved i s Hi Hs) |].
  unfold moved_against, at_rest in *. cbn [tile with_tile].
  change (rect (with_compass ?c ?t)) with (rect t).
  change (movementTracker (with_compass ?c ?t)) with (movementTracker t).
  destruct (move_closed_form (speed p)
              (with_compass (Vector2_scale (compass (tile p)) (-1)) (tile s)))
    as [Hr Ht].
  cbn zeta in Hr, Ht.
  cbn [compass movementTracker rect with_compass Vector2_scale vec_x vec_y] in Hr, Ht.
  rewrite Hrest in Hr, Ht. cbn [vertical horizontal] in Hr, Ht.
  rewrite Hr, Ht. split.
  - apply rect_ext; unfold rect_move_ip, rect_size;
      cbn [rect_left rect_top rect_width rect_height]; try reflexivity.
    + assert (Z.sgn (0 + vec_x (compass (tile p)) * -1) = - vec_x (compass (tile p)))
        as -> by lia.
      lia.
    + assert (Z.sgn (0 + vec_y (compass (tile p)) * -1) = - vec_y (compass (tile p)))
        as -> by lia.
      lia.
  - f_equal; lia.
Qed.

Lemma camera_update_scrolls_by_speed_witness :
  let s := mkSprite (new_tile [] (0, 64) (mkSurface 16 16)) 0 in
  NoDup (sprites camera3) /\
  Forall (fun j => is_Some (world3 !! j)) (sprites camera3) /\
  3%nat ∈ sprites camera3 /\
  world3 !! 3%nat = Some s /\
  at_rest (tile s) /\
  exists w' s',
    camera_update camera3 world3 = Some w' /\
    w' !! 3%nat = Some s' /\
    rect (tile s') = mkRect (-2) 64 16 16 /\
    at_rest (tile s').
Proof.
  intros s.
  assert (Hi : 3%nat ∈ sprites camera3) by (apply (bool_decide_unpack _); vm_compute; exact I).
  assert (Hs : world3 !! 3%nat = Some s) by (vm_compute; reflexivity).
  assert (Hrest : at_rest (tile s)) by reflexivity.
  assert (Hu : unit_heading (mkVector2 1 0)) by (unfold unit_heading; cbn; lia).
  split; [exact camera3_NoDup |]. split; [exact world3_holds_camera3 |].
  split; [exact Hi |]. split; [exact Hs |]. split; [exact Hrest |].
  destruct (camera_update_scrolls_by_speed camera3 world3 3%nat s _
              camera3_NoDup world3_holds_camera3 world3_player Hi Hs Hu Hrest)
    as (w' & s' & Hup & Hl & Hr & Hrest').
  exists w', s'. split; [exact Hup |]. split; [exact Hl |].
  split; [rewrite Hr; reflexivity | exact Hrest'].
Defined.

Lemma moved_against_idle (S : Z) (s : Sprite) :
  at_rest (tile s) -> moved_against Vector2_zero S s = s.
Proof.
  intros Hrest. unfold moved_against.
  rewrite move_idle; [| reflexivity | exact Hrest].
  destruct s as [[img r hb cp m g] sp]. reflexivity.
Qed.

(** X17.  While the player stands still (zero heading), [camera_update]
    changes nothing at all in a world whose camera sprites have their
    trackers at rest, whatever the player's speed. *)
Theorem camera_update_player_idle (self : CameraManager) (w : World) (p : Sprite) :
  NoDup (sprites self) ->
  Forall (fun j => is_Some (w !! j)) (sprites self) ->
  w !! playerCharacter self = Some p ->
  compass (tile p) = Vector2_zero ->
  (forall j s, j ∈ sprites self -> w !! j = Some s -> at_rest (tile s)) ->
  camera_update self w = Some w.
Proof.
  intros Hnd Hall Hp Hc Hrest.
  destruct (camera_update_full self w p Hnd Hall Hp) as (w' & Hu & Hout & Hin).
  rewrite Hu. f_equal. apply map_eq. intros j.
  destruct (decide (j ∈ sprites self)) as [Hj|Hj]; [| exact (Hout j Hj)].
  rewrite Forall_forall in Hall. destruct (Hall j Hj) as [s Hs].
  rewrite (Hin j s Hj Hs), Hs, Hc.
  f_equal. apply moved_against_idle. exact (Hrest j s Hj Hs).
Qed.

Lemma camera_update_player_idle_witness :
  NoDup (sprites camera_idle) /\
  Forall (fun j => is_Some (world_idle !! j)) (sprites camera_idle) /\
  camera_update camera_idle world_idle = Some world_idle.
Proof.
  assert (Hnd : NoDup (sprites camera_idle))
    by (apply (bool_decide_unpack _); vm_compute; exact I).
  assert (Hall : Forall (fun j => is_Some (world_idle !! j)) (sprites camera_idle))
    by (repeat constructor; apply is_Some_alt; vm_compute; exact I).
  split; [exact Hnd |]. split; [exact Hall |].
  apply (camera_update_player_idle camera_idle world_idle
           (mkSprite (mkTile (mkSurface 16 20) (mkRect 200 150 16 20)
                        (OwnRect (mkRect 200 155 16 10))
                        Vector2_zero (mkTracker 0 0) []) 2) Hnd Hall).
  - vm_compute. reflexivity.
  - reflexivity.
  - intros j s Hj Hs.
    apply elem_of_cons in Hj as [->|Hj];
      [| apply elem_of_cons in Hj as [->|Hj]; [| apply elem_of_nil in Hj; contradiction]].
    + assert (s = mkSprite (new_tile [] (0, 64) (mkSurface 16 16)) 0) as ->
        by (vm_compute in Hs; injection Hs as <-; reflexivity).
      reflexivity.
    + assert (s = mkSprite (new_tile [] (16, 0) (mkSurface 16 16)) 0) as ->
        by (vm_compute in Hs; injection Hs as <-; reflexivity).
      reflexivity.
Defined.

(** X18.  A camera fresh from its constructor holds no sprite, so its
    [camera_update] returns every world unchanged, even one without the
    player; its half sizes are the floor halves of the display size. *)
Theorem new_camera_update_is_noop (display_size : Z * Z) (player : objid) (w : World) :
  let cam := CameraManager_init display_size player in
  sprites cam = [] /\
  camera_update cam w = Some w /\
  2 * halfWidth cam <= fst display_size <= 2 * halfWidth cam + 1 /\
  2 * halfHeight cam <= snd display_size <= 2 * halfHeight cam + 1 /\
  offset cam = Vector2_zero.
Proof.
  intros cam. split; [reflexivity |]. split; [reflexivity |].
  unfold cam, CameraManager_init. cbn [halfWidth halfHeight offset].
  pose proof (Z.div_mod (fst display_size) 2 ltac:(lia)) as Hw.
  pose proof (Z.mod_pos_bound (fst display_size) 2 ltac:(lia)) as Hw'.
  pose proof (Z.div_mod (snd display_size) 2 ltac:(lia)) as Hh.
  pose proof (Z.mod_pos_bound (snd display_size) 2 ltac:(lia)) as Hh'.
  repeat split; lia.
Qed.

(* ===================================================================== *)
(** ** The sort is stable *)
(* ===================================================================== *)

Lemma filter_key_insert_keyed (k : Z) (x : Z * objid) (l : list (Z * objid)) :
  filter (fun kv => fst kv = k) (insert_keyed x l) =
  filter (fun kv => fst kv = k) (x :: l).
Proof.
  induction l as [|y l IH]; cbn [insert_keyed]; [reflexivity |].
  destruct (Z.leb_spec (fst x) (fst y)) as [Hle|Hlt]; [reflexivity |].
  rewrite (filter_cons _ y), IH, !(filter_cons _ x), (filter_cons _ y).
  destruct (decide (fst y = k)) as [Hy|Hy]; [| reflexivity].
  destruct (decide (fst x = k)) as [Hx|Hx]; [lia | reflexivity].
Qed.

Lemma filter_key_sorted_keyed (k : Z) (l : list (Z * objid)) :
  filter (fun kv => fst kv = k) (sorted_keyed l) =
  filter (fun kv => fst kv = k) l.
Proof.
  induction l as [|x l IH]; cbn [sorted_keyed]; [reflexivity |].
  rewrite filter_key_insert_keyed, !(filter_cons _ x), IH. reflexivity.
Qed.

Lemma filter_centery_keyed (w : World) (k : Z) (l : list (Z * objid)) :
  Forall (fun kv => fst kv = centery_of w (snd kv)) l ->
  filter (fun i => centery_of w i = k) (snd <$> l) =
  snd <$> filter (fun kv => fst kv = k) l.
Proof.
  induction 1 as [|kv l Hkv _ IH]; [reflexivity |].
  cbn [fmap list_fmap]. rewrite !filter_cons, IH, <- Hkv.
  destruct (decide (fst kv = k)); reflexivity.
Qed.

(** X19.  Ties keep the order of the group: among the sprites that share a
    vertical center, [camera_update] visits them in the order in which
    [self.sprites()] lists them. *)
Theorem camera_order_stable (w : World) (ids order : list objid) (k : Z) :
  camera_order w ids = Some order ->
  filter (fun i => centery_of w i = k) order =
  filter (fun i => centery_of w i = k) ids.
Proof.
  unfold camera_order. intros Ho.
  destruct (mapM (sprite_key w) ids) as [keyed|] eqn:Hm; [| discriminate].
  cbn [mbind option_bind] in Ho. injection Ho as <-.
  destruct (mapM_sprite_key w ids keyed Hm) as [Hids Hkeys].
  rewrite (filter_centery_keyed w k (sorted_keyed keyed))
    by (rewrite sorted_keyed_perm; exact Hkeys).
  rewrite filter_key_sorted_keyed, <- (filter_centery_keyed w k keyed) by exact Hkeys.
  rewrite Hids. reflexivity.
Qed.

Lemma camera_order_stable_witness :
  camera_order world_idle [7%nat; 3%nat; 5%nat] = Some [7%nat; 5%nat; 3%nat] /\
  filter (fun i => centery_of world_idle i = 8) [7%nat; 5%nat; 3%nat] =
  filter (fun i => centery_of world_idle i = 8) [7%nat; 3%nat; 5%nat].
Proof.
  assert (Ho : camera_order world_idle [7%nat; 3%nat; 5%nat] = Some [7%nat; 5%nat; 3%nat])
    by (vm_compute; reflexivity).
  split; [exact Ho |].
  exact (camera_order_stable world_idle _ _ 8 Ho).
Defined.

(* ===================================================================== *)
(** ** die *)
(* ===================================================================== *)

Lemma remove_internal_twice (i : objid) (l : list objid) :
  remove_internal i (remove_internal i l) = remove_internal i l.
Proof.
  unfold remove_internal. induction l as [|x l IH]; [reflexivity |].
  rewrite (filter_cons _ x). destruct (decide (x <> i)) as [Hx|Hx]; [| exact IH].
  rewrite (filter_cons _ x). destruct (decide (x <> i)); [| contradiction].
  f_equal. exact IH.
Qed.

Lemma remove_internal_absent (i : objid) (l : list objid) :
  i ∉ l -> remove_internal i l = l.
Proof.
  unfold remove_internal. induction l as [|x l IH]; intros Hi; [reflexivity |].
  apply not_elem_of_cons in Hi as [Hne Hi].
  rewrite filter_cons. destruct (decide (x <> i)) as [_|Hx];
    [| exfalso; apply Hx; congruence].
  f_equal. exact (IH Hi).
Qed.

Lemma remove_internal_gone (i : objid) (l : list objid) : i ∉ remove_internal i l.
Proof.
  unfold remove_internal. intros Hi. apply list_elem_of_filter in Hi as [Hne _].
  apply Hne. reflexivity.
Qed.

Lemma members_alter (i : objid) (g g' : string) (gs : Groups) :
  members (alter (remove_internal i) g' gs) g =
  if decide (g = g') then remove_internal i (members gs g) else members gs g.
Proof.
  unfold members. destruct (decide (g = g')) as [->|Hne].
  - rewrite lookup_alter_eq. destruct (gs !! g'); reflexivity.
  - rewrite lookup_alter_ne by congruence. reflexivity.
Qed.

Lemma members_kill (i : objid) (gl : list string) (gs : Groups) (g : string) :
  members (foldr (fun g gs => alter (remove_internal i) g gs) gs gl) g =
  if decide (g ∈ gl) then remove_internal i (members gs g) else members gs g.
Proof.
  induction gl as [|g0 gl IH]; cbn [foldr].
  - destruct (decide (g ∈ [])) as [H|_]; [apply elem_of_nil in H; contradiction |].
    reflexivity.
  - rewrite members_alter, IH.
    destruct (decide (g = g0)) as [->|Hne].
    + destruct (decide (g0 ∈ g0 :: gl)) as [_|H]; [| exfalso; apply H; left].
      destruct (decide (g0 ∈ gl)); [apply remove_internal_twice | reflexivity].
    + destruct (decide (g ∈ gl)) as [Hin|Hin];
        destruct (decide (g ∈ g0 :: gl)) as [Hin'|Hin']; try reflexivity.
      * exfalso. apply Hin'. right. exact Hin.
      * apply elem_of_cons in Hin' as [?|?]; contradiction.
Qed.

(** The members of a group after [kill], for a sprite that lists every group
    holding it. *)
Lemma members_after_kill (i : objid) (st : World * Groups) (s : Sprite) (g : string) :
  fst st !! i = Some s ->
  linked st i ->
  members (foldr (fun g gs => alter (remove_internal i) g gs) (snd st)
             (groups (tile s))) g = remove_internal i (members (snd st) g).
Proof.
  intros Hs Hlinked. rewrite members_kill.
  destruct (decide (g ∈ groups (tile s))) as [_|Hg]; [reflexivity |].
  symmetry. apply remove_internal_absent. intros Hi.
  destruct (Hlinked g Hi) as (s' & Hs' & Hg').
  rewrite Hs in Hs'. injection Hs' as <-. contradiction.
Qed.

(** X20.  [die] on a live sprite that lists every group holding it: the call
    returns; afterwards no group holds the sprite, a camera registered as a
    group included; every group holds its other sprites in the order it had
    them; the sprite's own group list is empty, its other attributes are as
    before and no other object has changed. *)
Theorem die_leaves_every_group (i : objid) (st : World * Groups) (s : Sprite) :
  fst st !! i = Some s ->
  linked st i ->
  exists st',
    die i st = Some st' /\
    (forall g, i ∉ members (snd st') g) /\
    (forall g, members (snd st') g = remove_internal i (members (snd st) g)) /\
    (forall name cam, i ∉ sprites (camera_in (snd st') name cam)) /\
    (forall name cam, sprites (camera_in (snd st') name cam) =
                      remove_internal i (sprites (camera_in (snd st) name cam))) /\
    fst st' !! i = Some (with_tile (with_groups [] (tile s)) s) /\
    (forall j, j <> i -> fst st' !! j = fst st !! j).
Proof.
  intros Hs Hlinked. unfold die, kill. rewrite Hs. cbn [mbind option_bind].
  eexists. split; [reflexivity |]. cbn [fst snd].
  pose proof (fun g => members_after_kill i st s g Hs Hlinked) as Hmem.
  split; [| split; [exact Hmem | split; [| split; [| split]]]].
  - intros g. rewrite Hmem. apply remove_internal_gone.
  - intros name cam. cbn [camera_in sprites]. rewrite Hmem. apply remove_internal_gone.
  - intros name cam. cbn [camera_in sprites]. apply Hmem.
  - apply lookup_insert_eq.
  - intros j Hj. apply lookup_insert_ne. congruence.
Qed.

Lemma stage2_linked_3 : linked stage2 3%nat.
Proof.
  intros g Hg. eexists. split; [vm_compute; reflexivity |].
  cbn [tile groups new_tile].
  unfold members, stage2 in Hg. cbn [snd] in Hg.
  destruct (decide (g = "visible"%string)) as [->|Hv]; [left |].
  rewrite lookup_insert_ne in Hg by congruence.
  destruct (decide (g = "obstacle"%string)) as [->|Ho]; [right; left |].
  rewrite lookup_insert_ne, lookup_empty in Hg by congruence.
  apply elem_of_nil in Hg. contradiction.
Defined.

Lemma die_leaves_every_group_witness :
  let s := mkSprite (new_tile ["visible"%string; "obstacle"%string] (0, 64)
                       (mkSurface 16 16)) 0 in
  fst stage2 !! 3%nat = Some s /\
  linked stage2 3%nat /\
  exists st',
    die 3%nat stage2 = Some st' /\
    members (snd st') "visible"%string = [5%nat] /\
    members (snd st') "obstacle"%string = [] /\
    sprites (camera_in (snd st') "visible"%string camera_on_stage2) = [5%nat] /\
    fst st' !! 3%nat = Some (with_tile (with_groups [] (tile s)) s).
Proof.
  intros s.
  assert (Hs : fst stage2 !! 3%nat = Some s) by (vm_compute; reflexivity).
  split; [exact Hs |]. split; [exact stage2_linked_3 |].
  destruct (die_leaves_every_group 3%nat stage2 s Hs stage2_linked_3)
    as (st' & Hd & _ & Hmem & _ & Hcam & Hl & _).
  exists st'. split; [exact Hd |].
  split; [rewrite Hmem; vm_compute; reflexivity |].
  split; [rewrite Hmem; vm_compute; reflexivity |].
  split; [rewrite Hcam; vm_compute; reflexivity | exact Hl].
Defined.

(** X21.  [die] is idempotent: a second [die] on the same sprite returns as
    well and changes neither the world nor any group. *)
Theorem die_twice (i : objid) (st st' : World * Groups) :
  die i st = Some st' ->
  die i st' = Some st'.
Proof.
  unfold die, kill. intros Hd.
  destruct (fst st !! i) as [s|] eqn:Hs; [| discriminate].
  cbn [mbind option_bind] in Hd. injection Hd as <-.
  cbn [fst snd]. rewrite lookup_insert_eq. cbn [mbind option_bind].
  cbn [tile with_tile groups with_groups foldr].
  rewrite insert_insert_eq. reflexivity.
Qed.

Lemma die_twice_witness :
  exists st', die 3%nat stage2 = Some st' /\ die 3%nat st' = Some st'.
Proof.
  assert (Hs : fst stage2 !! 3%nat =
               Some (mkSprite (new_tile ["visible"%string; "obstacle"%string] (0, 64)
                                (mkSurface 16 16)) 0))
    by (vm_compute; reflexivity).
  assert (Hd : is_Some (die 3%nat stage2))
    by (unfold die, kill; rewrite Hs; eexists; reflexivity).
  destruct Hd as [st' Hd].
  exists st'. split; [exact Hd |].
  exact (die_twice 3%nat stage2 st' Hd).
Defined.

(* ===================================================================== *)
(** ** The damsel's rectangles *)
(* ===================================================================== *)

(** X22.  From [Damsel.__init__] on, through any sequence of [move],
    directional and primitive calls, the damsel's hitbox is the 16x10
    rectangle on the center of its 16x20 render rectangle. *)
Theorem damsel_hitbox_invariant
  (pos : Z * Z) (grps : list string) (obstacles : list objid)
  (entity_speed : Z) (entity_animation : Animation) (cs : list TileCall) :
  let d := Damsel_init pos grps obstacles entity_speed entity_animation in
  let t := run_calls cs (damsel_tile d) in
  rect_topleft (rect (damsel_tile d)) = pos /\
  hitbox_centered t /\
  rect_size (rect t) = (16, 20) /\
  rect_size (hitbox_rect t) = (16, 10).
Proof.
  intros d t.
  split; [destruct pos; reflexivity |].
  assert (H : hitbox_centered t /\ tile_shape t = tile_shape (damsel_tile d)).
  { apply (invariant_run_calls
             (fun u => hitbox_centered u /\ tile_shape u = tile_shape (damsel_tile d))).
    - intros m u Hu. exact Hu.
    - intros c u Hu. exact Hu.
    - intros dir s u [_ Hu]. split; [apply centered__move_dir |].
      rewrite shape__move_dir. exact Hu.
    - split; [| reflexivity]. exact (damsel_hitbox_centered pos). }
  destruct H as [Hc Hshape]. split; [exact Hc |].
  split.
  - exact (f_equal (fun x => snd (fst x)) Hshape).
  - exact (f_equal snd Hshape).
Qed.

(* ===================================================================== *)
(** ** A dead sprite and the camera *)
(* ===================================================================== *)


